(** * geom_visualisation: transform algebra, efficiency extraction,
      traversal, solid synthesis and colour assignment of [main.py].

    Number model.  NumPy's floating-point scalars are embedded as exact
    rationals ([Q]): every finite IEEE value is a rational, and the
    arithmetic of the program ([+], [*], [/]) is the exact one, so rounding
    is not represented.  Statements about coordinates are therefore stated
    up to [Qeq], the equality of rationals as numbers.  Integer arrays
    (colours, random draws) are [Z]; the [uint8] cast is written out with
    its wrap-around.

    Library calls.  Meshes built by trimesh are kept as the call that built
    them (constructor arguments, hull input, cylinder parameters): what
    trimesh or qhull do inside is outside the program; in particular the
    hull call is kept even where qhull would raise on an empty or flat point
    set, and the statements about per-module runs are about runs that end
    normally or about what was collected before a raise.  The vertex merge
    of trimesh's constructor is written out separately where the box
    depends on it.  The generator behind [np.random] is a sequence of raw
    words kept in the state. *)

From Stdlib Require Import String.
From Stdlib Require Import List ZArith QArith Qround Bool Lia Lqa Arith.
From Stdlib Require Import SpecFloat.
Import ListNotations.

Local Open Scope Q_scope.

(** ** The part of NumPy the program uses *)

Module np.

(** A one-dimensional array of floats and a two-dimensional one, row-major. *)
Definition vector := list Q.
Definition ndarray := list vector.

(** [a.shape] of a two-dimensional array. *)
Definition shape (a : ndarray) : nat * nat :=
  (length a, length (hd [] a)).

(** [np.vstack([a, row])]: one more row at the bottom. *)
Definition vstack (a : ndarray) (row : vector) : ndarray := a ++ [row].

(** [np.hstack([v, x])]: one more entry at the end. *)
Definition hstack (v : vector) (x : Q) : vector := v ++ [x].

(** [a[lo:hi, :]] and [v[lo:hi]]. *)
Definition slice {A : Type} (lo hi : nat) (l : list A) : list A :=
  firstn (hi - lo) (skipn lo l).

Definition sum (v : vector) : Q := fold_right Qplus 0 v.

Fixpoint zip_with (f : Q -> Q -> Q) (u v : vector) : vector :=
  match u, v with
  | x :: u', y :: v' => f x y :: zip_with f u' v'
  | _, _ => []
  end.

Definition dot (u v : vector) : Q := sum (zip_with Qmult u v).

Definition column (j : nat) (b : ndarray) : vector :=
  map (fun row => nth j row 0) b.

(** [np.matmul(a, b)] of two matrices, and of a matrix and a vector.
    NumPy raises on a shape mismatch; the operands here are always the
    4x4 promotions of 3x4 transforms and the 4-entry promotions of
    coordinates, for which the shapes agree. *)
Definition matmul (a b : ndarray) : ndarray :=
  map (fun row => map (fun j => dot row (column j b))
                      (seq 0 (length (hd [] b)))) a.

Definition matvec (a : ndarray) (v : vector) : vector :=
  map (fun row => dot row v) a.

(** [np.mean(v)] of a one-dimensional array, [np.mean(a, axis=1)].  On an
    empty array NumPy gives NaN; the quotient by zero is 0 here, and the
    statements below that depend on a mean ask for a non-empty array. *)
Definition mean (v : vector) : Q :=
  sum v / inject_Z (Z.of_nat (length v)).

Definition mean_axis1 (a : ndarray) : vector := map mean a.

(** [np.ones(shape)]. *)
Definition ones (sh : nat * nat) : ndarray :=
  repeat (repeat 1 (snd sh)) (fst sh).

End np.

(** ** petsird value types *)

Record RigidTransformation := { matrix : np.ndarray }.
Record Coordinate := { c : np.vector }.
Record BoxShape := { corners : list Coordinate }.

(** The shapes petsird declares: a 3x4 matrix and a 3-vector. *)
Definition is_transform (t : RigidTransformation) : bool :=
  (length (matrix t) =? 3)%nat
  && forallb (fun row => (length row =? 4)%nat) (matrix t).

Definition is_coordinate (p : Coordinate) : bool :=
  (length (c p) =? 3)%nat.

(** Equality of coordinates as numbers. *)
Definition coord_eq (p q : Coordinate) : Prop := Forall2 Qeq (c p) (c q).

(** ** Transform algebra *)

Definition transform_to_mat44 (transform : RigidTransformation) : np.ndarray :=
  np.vstack (matrix transform) [0; 0; 0; 1].

Definition mat44_to_transform (mat : np.ndarray) : RigidTransformation :=
  {| matrix := np.slice 0 3 mat |}.

Definition coordinate_to_homogeneous (coord : Coordinate) : np.vector :=
  np.hstack (c coord) 1.

Definition homogeneous_to_coordinate (hom_coord : np.vector) : Coordinate :=
  {| c := np.slice 0 3 hom_coord |}.

Definition eye4 : np.ndarray :=
  [[1; 0; 0; 0]; [0; 1; 0; 0]; [0; 0; 1; 0]; [0; 0; 0; 1]].

(** [for t in reversed(transforms): mat = np.matmul(transform_to_mat44(t), mat)] *)
Definition mult_transforms (transforms : list RigidTransformation)
  : RigidTransformation :=
  mat44_to_transform
    (fold_left (fun mat t => np.matmul (transform_to_mat44 t) mat)
               (rev transforms) eye4).

Definition mult_transforms_coord (transforms : list RigidTransformation)
    (coord : Coordinate) : Coordinate :=
  homogeneous_to_coordinate
    (np.matvec (transform_to_mat44 (mult_transforms transforms))
               (coordinate_to_homogeneous coord)).

Definition transform_BoxShape (transform : RigidTransformation)
    (box_shape : BoxShape) : BoxShape :=
  {| corners := map (fun c0 => mult_transforms_coord [transform] c0)
                    (corners box_shape) |}.

(** The spec's [apply(transform, point)]: the program applies one transform to
    a point through [mult_transforms_coord] on a one-element list. *)
Definition apply_transform (t : RigidTransformation) (p : Coordinate)
  : Coordinate :=
  mult_transforms_coord [t] p.

(** The 4x4 matrix [mult_transforms] accumulates before cutting it. *)
Definition mult_mat44 (transforms : list RigidTransformation) : np.ndarray :=
  fold_left (fun mat t => np.matmul (transform_to_mat44 t) mat)
            (rev transforms) eye4.

(** A 4x4 matrix whose bottom row is (0,0,0,1). *)
Definition homogeneous (m : np.ndarray) : Prop :=
  exists r1 r2 r3 a b c0 d,
    m = [r1; r2; r3; [a; b; c0; d]]
    /\ length r1 = 4%nat /\ length r2 = 4%nat /\ length r3 = 4%nat
    /\ a == 0 /\ b == 0 /\ c0 == 0 /\ d == 1.

(** ** Header, as the external reader yields it *)

Record BoxSolidVolume := { shape : BoxShape }.

Module ReplicatedBoxSolidVolume.
Record t := { object : BoxSolidVolume;
              transforms : list RigidTransformation }.
End ReplicatedBoxSolidVolume.

Record DetectorModule :=
  { detecting_elements : list ReplicatedBoxSolidVolume.t }.

Module ReplicatedDetectorModule.
Record t := { object : DetectorModule;
              transforms : list RigidTransformation }.
End ReplicatedDetectorModule.

Record ScannerGeometry :=
  { replicated_modules : list ReplicatedDetectorModule.t }.

Record DetectionEfficiencies :=
  { det_el_efficiencies : option np.ndarray }.

Record ScannerInformation :=
  { scanner_geometry : ScannerGeometry;
    detection_efficiencies : DetectionEfficiencies }.

Record Header := { scanner : ScannerInformation }.

(** The parsed command line. *)
Record Args :=
  { modules_only : bool;
    show_det_eff : bool;
    random_color : bool;
    fov : option (Q * Q) }.

(** ** trimesh objects *)

Inductive Geometry :=
| Mesh (vertices : list np.vector) (faces : list (list nat))
    (* trimesh.Trimesh(vertices=..., faces=...) *)
| ConvexHull (points : list np.vector)
    (* trimesh.convex.convex_hull(points) *)
| Cylinder (radius height : Q).
    (* trimesh.creation.cylinder(radius=..., height=...) *)

Record Trimesh :=
  { geometry : Geometry;
    face_colors : option (list Z) (* [visual.face_colors], [None] until set *) }.

Definition set_face_colors (m : Trimesh) (f_color : list Z) : Trimesh :=
  {| geometry := geometry m; face_colors := Some f_color |}.

(** ** Exceptions and the interpreter state *)

Inductive exn :=
| SystemExit (msg : string)
| IndexError
| ValueError
| NameError (name : string).

(** The module-level variables the traversal assigns, and the position in the
    random generator's sequence of raw words. *)
Record state :=
  { shapes : list Trimesh;
    vertices : list (list np.vector);
    num_det_in_module : option nat;
    rng : nat -> Z;
    rng_pos : nat }.

Definition M (A : Type) : Type := state -> (exn + A) * state.

Definition ret {A} (a : A) : M A := fun s => (inr a, s).
Definition raise {A} (e : exn) : M A := fun s => (inl e, s).
Definition bind {A B} (m : M A) (k : A -> M B) : M B :=
  fun s => match m s with
           | (inr a, s') => k a s'
           | (inl e, s') => (inl e, s')
           end.

Notation "x <- m ;; k" := (bind m (fun x => k))
  (at level 61, m at next level, right associativity).
Notation "m ;; k" := (bind m (fun _ => k))
  (at level 61, right associativity).

Fixpoint for_each {A} (xs : list A) (body : A -> M unit) : M unit :=
  match xs with
  | [] => ret tt
  | x :: xs' => body x ;; for_each xs' body
  end.

(** [range(n)] *)
Definition range (n : nat) : list nat := seq 0 n.

(** [l[i]] for a non-negative [i]. *)
Definition index {A} (l : list A) (i : nat) : M A :=
  match nth_error l i with
  | Some x => ret x
  | None => raise IndexError
  end.

Definition assign_shapes (v : list Trimesh) : M unit :=
  fun s => (inr tt, {| shapes := v; vertices := vertices s;
                       num_det_in_module := num_det_in_module s;
                       rng := rng s; rng_pos := rng_pos s |}).

Definition shapes_append (m : Trimesh) : M unit :=
  fun s => (inr tt, {| shapes := shapes s ++ [m]; vertices := vertices s;
                       num_det_in_module := num_det_in_module s;
                       rng := rng s; rng_pos := rng_pos s |}).

Definition assign_vertices (v : list (list np.vector)) : M unit :=
  fun s => (inr tt, {| shapes := shapes s; vertices := v;
                       num_det_in_module := num_det_in_module s;
                       rng := rng s; rng_pos := rng_pos s |}).

Definition vertices_append (corners0 : list np.vector) : M unit :=
  fun s => (inr tt, {| shapes := shapes s;
                       vertices := vertices s ++ [corners0];
                       num_det_in_module := num_det_in_module s;
                       rng := rng s; rng_pos := rng_pos s |}).

Definition read_vertices : M (list (list np.vector)) :=
  fun s => (inr (vertices s), s).

Definition assign_num_det_in_module (n : nat) : M unit :=
  fun s => (inr tt, {| shapes := shapes s; vertices := vertices s;
                       num_det_in_module := Some n;
                       rng := rng s; rng_pos := rng_pos s |}).

(** Reading a name that was never assigned raises [NameError]. *)
Definition read_num_det_in_module : M nat :=
  fun s => match num_det_in_module s with
           | Some n => (inr n, s)
           | None => (inl (NameError "num_det_in_module"), s)
           end.

(** [np.random.randint(low, high, size=size)]: [size] integers from [low]
    (inclusive) to [high] (exclusive).  How NumPy derives a draw from the
    words of its generator (masking and rejection) is not represented: a
    draw is some value of the range determined by the generator, here a
    raw word reduced into the range, and the statements of this file use
    only the range of a draw and where the generator is consulted. *)
Definition randint (low high : Z) (size : nat) : M (list Z) :=
  fun s =>
    if (low <? high)%Z then
      (inr (map (fun i => (low + rng s (rng_pos s + i)%nat mod (high - low))%Z)
                (seq 0 size)),
       {| shapes := shapes s; vertices := vertices s;
          num_det_in_module := num_det_in_module s;
          rng := rng s; rng_pos := (rng_pos s + size)%nat |})
    else (inl ValueError, s).

(** ** Solid synthesis *)

Definition box_faces : list (list nat) :=
  [ [1; 0; 2]; [0; 2; 3];   (* Bottom face *)
    [4; 5; 6]; [4; 6; 7];   (* Top face *)
    [0; 3; 7]; [0; 7; 4];   (* Left face *)
    [1; 2; 6]; [1; 6; 5];   (* Right face *)
    [0; 1; 5]; [0; 5; 4];   (* Front face *)
    [3; 2; 6]; [3; 6; 7] ]%nat. (* Back face *)

Definition create_box_from_vertices (vertices0 : list np.vector) : Trimesh :=
  let faces := box_faces in
  {| geometry := Mesh vertices0 faces; face_colors := None |}.

(** ** Efficiency extractor *)

Definition missing_efficiencies_message : string :=
  "The scanner detection efficiencies is not defined. Correct this or remove the detector efficiency flag.".

Definition extract_detector_eff (show_det_eff0 : bool) (header : Header)
  : M (option np.vector) :=
  match det_el_efficiencies (detection_efficiencies (scanner header)) with
  | Some table =>
      let detector_efficiencies :=
        if show_det_eff0 then table else np.ones (np.shape table) in
      ret (Some (np.mean_axis1 detector_efficiencies))
  | None =>
      if show_det_eff0 then raise (SystemExit missing_efficiencies_message)
      else ret None
  end.

(** ** Colour assignment *)

(** An entry of the array [color]: an integer (random draw, [uint8] constant)
    or a float (constant times efficiency). *)
Inductive scalar :=
| Int (z : Z)
| Float (q : Q).

(** Rounding toward zero, the integer part a float-to-integer cast keeps. *)
Definition Qtrunc (q : Q) : Z :=
  if Qle_bool 0 q then Qfloor q else Qceiling q.

(** [.astype(np.uint8)] on one entry.  For a value whose integer part lies
    in 0..255 the cast stores that integer part; the statements of this file
    use the cast only there.  Outside that range the C cast NumPy performs
    is unchecked and its result depends on the platform; the reduction
    modulo 2^8 written here is one such result and no statement relies on
    it.  In [np.array([.., 50])] an integer next to floats is first made a
    float; its integer part is the integer again. *)
Definition astype_uint8 (x : scalar) : Z :=
  match x with
  | Int z => (z mod 256)%Z
  | Float q => (Qtrunc q mod 256)%Z
  end.

Definition crystal_color : list Z := [255; 40; 40]%Z.

(** [crystal_color * e] for a float [e]. *)
Definition scale_color (col : list Z) (e : Q) : list scalar :=
  map (fun ch => Float (inject_Z ch * e)) col.

(** [color[i]] of a three-entry array. *)
Definition channel (color : list scalar) (i : nat) : scalar :=
  nth i color (Int 0).

(** [np.array([color[0], color[1], color[2], 50]).astype(np.uint8)] *)
Definition f_color_of (color : list scalar) : list Z :=
  map astype_uint8 [channel color 0; channel color 1; channel color 2; Int 50].

Definition set_detector_color (det_mesh : Trimesh)
    (detector_efficiencies : option np.vector)
    (mod_i num_det_in_module0 det_i : nat) (random_color0 : bool)
  : M Trimesh :=
  color <- (if random_color0 then
              draws <- randint 0 255 3 ;; ret (map Int draws)
            else
              match detector_efficiencies with
              | Some effs =>
                  e <- index effs (mod_i * num_det_in_module0 + det_i) ;;
                  ret (scale_color crystal_color e)
              | None => ret (map Int crystal_color)
              end) ;;
  let f_color := f_color_of color in
  ret (set_face_colors det_mesh f_color).

(** [a.reshape((-1, width))[i, :]]: the reshape needs a positive width that
    divides the size, the row index has to be below the row count. *)
Definition reshape_row (a : np.vector) (width i : nat) : M np.vector :=
  if (width =? 0)%nat then raise ValueError
  else if negb (length a mod width =? 0)%nat then raise ValueError
  else if (i <? length a / width)%nat
       then ret (np.slice (i * width) (i * width + width) a)
       else raise IndexError.

Definition set_module_color (module_mesh : Trimesh)
    (detector_efficiencies : option np.vector)
    (mod_i num_det_in_module0 : nat)
    (det_el : list ReplicatedBoxSolidVolume.t) (random_color0 : bool)
  : M Trimesh :=
  color <- (if random_color0 then
              draws <- randint 0 255 3 ;; ret (map Int draws)
            else
              match detector_efficiencies with
              | Some effs =>
                  (* Mean of the detector efficiency in the current module *)
                  row <- reshape_row effs (length det_el * num_det_in_module0)
                                     mod_i ;;
                  ret (scale_color crystal_color (np.mean row))
              | None => ret (map Int crystal_color)
              end) ;;
  let f_color := f_color_of color in
  ret (set_face_colors module_mesh f_color).

(** ** Geometry traversal: the body of [__main__] after the header is read *)

(** [np.array(vertices).reshape((-1, 3))]: the per-instance corner lists, each
    8 rows of 3 coordinates, laid end to end. *)
Definition reshape_points (vs : list (list np.vector)) : list np.vector :=
  concat vs.

Definition element_body (args : Args)
    (detector_efficiencies : option np.vector)
    (mod_i : nat) (mod_transform : RigidTransformation)
    (rep_volume : ReplicatedBoxSolidVolume.t)
    (num_det_in_module0 det_i : nat) : M unit :=
  transform <- index (ReplicatedBoxSolidVolume.transforms rep_volume) det_i ;;
  let box :=
    transform_BoxShape (mult_transforms [mod_transform; transform])
      (shape (ReplicatedBoxSolidVolume.object rep_volume)) in
  let corners0 := map c (corners box) in
  if negb (modules_only args) then
    let det_mesh := create_box_from_vertices corners0 in
    det_mesh' <- set_detector_color det_mesh detector_efficiencies mod_i
                   num_det_in_module0 det_i (random_color args) ;;
    shapes_append det_mesh'
  else
    vertices_append corners0.

Definition group_body (args : Args)
    (detector_efficiencies : option np.vector)
    (mod_i : nat) (mod_transform : RigidTransformation)
    (rep_volume : ReplicatedBoxSolidVolume.t) : M unit :=
  assign_num_det_in_module
    (length (ReplicatedBoxSolidVolume.transforms rep_volume)) ;;
  n <- read_num_det_in_module ;;
  for_each (range n)
    (element_body args detector_efficiencies mod_i mod_transform rep_volume n).

Definition module_body (args : Args)
    (detector_efficiencies : option np.vector)
    (rep_module : ReplicatedDetectorModule.t)
    (det_el : list ReplicatedBoxSolidVolume.t) (mod_i : nat) : M unit :=
  assign_vertices [] ;;  (* If showing modules only *)
  mod_transform <- index (ReplicatedDetectorModule.transforms rep_module) mod_i ;;
  for_each det_el
    (group_body args detector_efficiencies mod_i mod_transform) ;;
  if modules_only args then
    vs <- read_vertices ;;
    let vertices_reshaped := reshape_points vs in
    let module_mesh :=
      {| geometry := ConvexHull vertices_reshaped; face_colors := None |} in
    n <- read_num_det_in_module ;;
    module_mesh' <- set_module_color module_mesh detector_efficiencies mod_i
                      n det_el (random_color args) ;;
    shapes_append module_mesh'
  else ret tt.

Definition rep_module_body (args : Args)
    (detector_efficiencies : option np.vector)
    (rep_module : ReplicatedDetectorModule.t) : M unit :=
  let det_el :=
    detecting_elements (ReplicatedDetectorModule.object rep_module) in
  for_each (range (length (ReplicatedDetectorModule.transforms rep_module)))
    (module_body args detector_efficiencies rep_module det_el).

Definition main (args : Args) (header : Header) : M unit :=
  detector_efficiencies <- extract_detector_eff (show_det_eff args) header ;;
  assign_shapes [] ;;
  (* draw all crystals *)
  for_each (replicated_modules (scanner_geometry (scanner header)))
    (rep_module_body args detector_efficiencies) ;;
  match fov args with
  | Some (radius, height) =>
      shapes_append {| geometry := Cylinder radius height;
                       face_colors := None |}
  | None => ret tt
  end.

(** The interpreter state when the script starts with generator [g]. *)
Definition initial_state (g : nat -> Z) : state :=
  {| shapes := []; vertices := []; num_det_in_module := None;
     rng := g; rng_pos := 0 |}.

(** A run: how the script ends, and the solids it has collected by then. *)
Definition run (args : Args) (header : Header) (g : nat -> Z)
  : (exn + unit) * list Trimesh :=
  let (r, s) := main args header (initial_state g) in (r, shapes s).

(** ** Concrete inputs *)

(** A rotation by a quarter turn about z followed by a shift, and two
    translations, used as concrete inputs below. *)
Definition quarter_turn : RigidTransformation :=
  {| matrix := [[0; -1; 0; 5]; [1; 0; 0; 0]; [0; 0; 1; 1 # 2]] |}.

Definition translation (x y z : Q) : RigidTransformation :=
  {| matrix := [[1; 0; 0; x]; [0; 1; 0; y]; [0; 0; 1; z]] |}.

Definition header_of (mods : list ReplicatedDetectorModule.t)
    (table : option np.ndarray) : Header :=
  {| scanner :=
       {| scanner_geometry := {| replicated_modules := mods |};
          detection_efficiencies := {| det_el_efficiencies := table |} |} |}.

Definition args_of (modules_only0 show_det_eff0 random_color0 : bool) : Args :=
  {| modules_only := modules_only0; show_det_eff := show_det_eff0;
     random_color := random_color0; fov := None |}.

(** A generator's raw words, for running the random mode. *)
Definition raw_words (n : nat) : Z := (Z.of_nat n * 7919 + 255)%Z.

(** The unit cube centred at the origin, corners in the order of the face
    table: bottom 0-3, top 4-7. *)
Definition unit_cube : BoxShape :=
  {| corners :=
       map (fun v => {| c := v |})
         [ [-(1#2); -(1#2); -(1#2)]; [1#2; -(1#2); -(1#2)];
           [1#2; 1#2; -(1#2)];       [-(1#2); 1#2; -(1#2)];
           [-(1#2); -(1#2); 1#2];    [1#2; -(1#2); 1#2];
           [1#2; 1#2; 1#2];          [-(1#2); 1#2; 1#2] ] |}.

Definition cubes_at (ts : list RigidTransformation)
  : ReplicatedBoxSolidVolume.t :=
  {| ReplicatedBoxSolidVolume.object := {| shape := unit_cube |};
     ReplicatedBoxSolidVolume.transforms := ts |}.

Definition module_of (groups : list ReplicatedBoxSolidVolume.t)
    (placements : list RigidTransformation) : ReplicatedDetectorModule.t :=
  {| ReplicatedDetectorModule.object := {| detecting_elements := groups |};
     ReplicatedDetectorModule.transforms := placements |}.

(** One module instance holding two groups of one cube each, and a table
    with one row per element instance: weight 1 for the first, 0 for the
    second. *)
Definition two_group_header : Header :=
  header_of
    [module_of [cubes_at [translation 0 0 0]; cubes_at [translation 1 0 0]]
               [translation 0 0 0]]
    (Some [[1]; [0]]).

(** Following the spec's words: the index into the flat efficiency array is
    the module-instance index times the element instances per module, plus
    the running count of element instances over the groups of the module. *)
Definition spec_efficiency_index
    (mod_i elements_per_module running_count : nat) : nat :=
  mod_i * elements_per_module + running_count.

Definition spec_element_color (effs : np.vector) (k : nat) : list Z :=
  f_color_of (scale_color crystal_color (nth k effs 0)).



(** The state after [k] more raw words have been consumed. *)
Definition advance (k : nat) (s : state) : state :=
  {| shapes := shapes s; vertices := vertices s;
     num_det_in_module := num_det_in_module s;
     rng := rng s; rng_pos := (rng_pos s + k)%nat |}.

(** The draw [randint 0 255] makes of the [i]-th next raw word. *)
Definition draw (s : state) (i : nat) : Z :=
  (rng s (rng_pos s + i)%nat mod 255)%Z.

(** ** What per-module mode is expected to emit *)

(** World-space corners of one element instance. *)
Definition element_corners (mod_transform : RigidTransformation)
    (rep_volume : ReplicatedBoxSolidVolume.t) (transform : RigidTransformation)
  : list np.vector :=
  map c (corners
           (transform_BoxShape (mult_transforms [mod_transform; transform])
              (shape (ReplicatedBoxSolidVolume.object rep_volume)))).

(** The corner lists of all instances of all groups of one module instance,
    in traversal order. *)
Definition module_corners (det_el : list ReplicatedBoxSolidVolume.t)
    (mod_transform : RigidTransformation) : list (list np.vector) :=
  flat_map (fun rep_volume =>
              map (element_corners mod_transform rep_volume)
                  (ReplicatedBoxSolidVolume.transforms rep_volume))
           det_el.

Definition module_hull (det_el : list ReplicatedBoxSolidVolume.t)
    (mod_transform : RigidTransformation) : Geometry :=
  ConvexHull (concat (module_corners det_el mod_transform)).

Definition expected_hulls (header : Header) : list Geometry :=
  flat_map (fun rep_module =>
              map (module_hull
                     (detecting_elements
                        (ReplicatedDetectorModule.object rep_module)))
                  (ReplicatedDetectorModule.transforms rep_module))
           (replicated_modules (scanner_geometry (scanner header))).

Definition fov_geometry (args : Args) : list Geometry :=
  match fov args with
  | Some (radius, height) => [Cylinder radius height]
  | None => []
  end.

Definition module_instances (header : Header) : nat :=
  list_sum (map (fun rep_module =>
                   length (ReplicatedDetectorModule.transforms rep_module))
                (replicated_modules (scanner_geometry (scanner header)))).

(** A computation emits [expected]: the geometries it appends to [shapes]
    are all of [expected] when it ends normally, and an initial part of it
    when it raises. *)
Definition emitted {A} (r : exn + A) (done expected : list Geometry) : Prop :=
  match r with
  | inr _ => done = expected
  | inl _ => exists rest, expected = done ++ rest
  end.

Definition emits {A} (m : M A) (expected : list Geometry) : Prop :=
  forall s r s',
    m s = (r, s') ->
    exists done,
      map geometry (shapes s') = map geometry (shapes s) ++ done
      /\ emitted r done expected.

Definition set_vertices (v : list (list np.vector)) (s : state) : state :=
  {| shapes := shapes s; vertices := v;
     num_det_in_module := num_det_in_module s;
     rng := rng s; rng_pos := rng_pos s |}.

Definition set_num (n : option nat) (s : state) : state :=
  {| shapes := shapes s; vertices := vertices s;
     num_det_in_module := n;
     rng := rng s; rng_pos := rng_pos s |}.

(** The value [num_det_in_module] holds after the groups [det_el]. *)
Definition last_num (det_el : list ReplicatedBoxSolidVolume.t)
    (before : option nat) : option nat :=
  fold_left (fun _ rep_volume =>
               Some (length (ReplicatedBoxSolidVolume.transforms rep_volume)))
            det_el before.

(** ** The two-cube scanner and the convex hull of a point set *)

(** One module instance placed by the identity, one group, two unit cubes
    shifted by (0,0,0) and (1,0,0); no efficiency table. *)
Definition two_cube_header : Header :=
  header_of
    [module_of [cubes_at [translation 0 0 0; translation 1 0 0]]
               [translation 0 0 0]]
    None.

(** The 16 corners per-module mode accumulates on that scanner. *)
Definition sixteen_corners : list np.vector := Eval vm_compute in
    concat (module_corners
              [cubes_at [translation 0 0 0; translation 1 0 0]]
              (translation 0 0 0)).

(** The same corners written out: the cube around the origin, then the cube
    around (1,0,0). *)
Definition two_cube_corners : list np.vector :=
  [ [-(1#2); -(1#2); -(1#2)]; [1#2; -(1#2); -(1#2)];
    [1#2; 1#2; -(1#2)];       [-(1#2); 1#2; -(1#2)];
    [-(1#2); -(1#2); 1#2];    [1#2; -(1#2); 1#2];
    [1#2; 1#2; 1#2];          [-(1#2); 1#2; 1#2];
    [1#2; -(1#2); -(1#2)];    [3#2; -(1#2); -(1#2)];
    [3#2; 1#2; -(1#2)];       [1#2; 1#2; -(1#2)];
    [1#2; -(1#2); 1#2];       [3#2; -(1#2); 1#2];
    [3#2; 1#2; 1#2];          [1#2; 1#2; 1#2] ].

(** Coordinate [k] of the combination of [pts] with weights [ws]. *)
Definition weighted_sum (k : nat) (ws : list Q) (pts : list np.vector) : Q :=
  np.sum (map (fun wp => fst wp * nth k (snd wp) 0) (combine ws pts)).

(** [p] is a convex combination of [pts]. *)
Definition in_hull (pts : list np.vector) (x y z : Q) : Prop :=
  exists ws,
    length ws = length pts
    /\ Forall (fun w => 0 <= w) ws
    /\ np.sum ws == 1
    /\ weighted_sum 0 ws pts == x
    /\ weighted_sum 1 ws pts == y
    /\ weighted_sum 2 ws pts == z.

(** The box of size 2 x 1 x 1 around the two cubes. *)
Definition in_box_2_1_1 (x y z : Q) : Prop :=
  (-(1#2) <= x /\ x <= 3#2)
  /\ (-(1#2) <= y /\ y <= 1#2)
  /\ (-(1#2) <= z /\ z <= 1#2).

(** Weights of the eight outer corners among the sixteen, by interpolation
    along the three axes. *)
Definition box_weights (x y z : Q) : list Q :=
  let a := (x + (1#2)) / 2 in
  let b := y + (1#2) in
  let d := z + (1#2) in
  [ (1 - a) * (1 - b) * (1 - d); 0; 0; (1 - a) * b * (1 - d);
    (1 - a) * (1 - b) * d;       0; 0; (1 - a) * b * d;
    0; a * (1 - b) * (1 - d); a * b * (1 - d); 0;
    0; a * (1 - b) * d;       a * b * d;       0 ].

(** ** Further notions used by the properties of the whole program *)

(** Equality of transforms as numbers, entry by entry. *)
Definition transform_eq (s t : RigidTransformation) : Prop :=
  Forall2 (Forall2 Qeq) (matrix s) (matrix t).

(** The affine map a 3x4 matrix stands for: the left 3x3 block times the
    point, plus the last column. *)
Definition affine (t : RigidTransformation) (p : Coordinate) : Coordinate :=
  {| c := np.zip_with Qplus
            (np.matvec (map (np.slice 0 3) (matrix t)) (c p))
            (np.column 3 (matrix t)) |}.

Definition is_box (b : BoxShape) : bool := forallb is_coordinate (corners b).


(** ** What per-element mode is expected to emit *)

(** The boxes of one module instance, one per element instance, in traversal
    order. *)
Definition module_boxes (det_el : list ReplicatedBoxSolidVolume.t)
    (mod_transform : RigidTransformation) : list Geometry :=
  flat_map (fun rep_volume =>
              map (fun t => Mesh (element_corners mod_transform rep_volume t)
                                 box_faces)
                  (ReplicatedBoxSolidVolume.transforms rep_volume))
           det_el.

Definition expected_boxes (header : Header) : list Geometry :=
  flat_map (fun rep_module =>
              flat_map (module_boxes
                          (detecting_elements
                             (ReplicatedDetectorModule.object rep_module)))
                       (ReplicatedDetectorModule.transforms rep_module))
           (replicated_modules (scanner_geometry (scanner header))).

(** Element instances of the scanner: for every module type, placements
    times the instances of all its groups. *)
Definition element_instances (header : Header) : nat :=
  list_sum
    (map (fun rep_module =>
            (length (ReplicatedDetectorModule.transforms rep_module)
             * list_sum
                 (map (fun rep_volume =>
                         length (ReplicatedBoxSolidVolume.transforms rep_volume))
                      (detecting_elements
                         (ReplicatedDetectorModule.object rep_module))))%nat)
         (replicated_modules (scanner_geometry (scanner header)))).


(** ** Colouring jobs of per-element mode *)

(** A job: the box to colour and the index its efficiency is read at. *)
Definition job : Type := Geometry * nat.

(** The colour a job gets, by mode: drawn from the raw words at [pos],
    scaled by the indexed weight, or the base colour. *)
Definition job_color (random_color0 : bool) (effs : option np.vector)
    (g : nat -> Z) (pos : nat) (j : job) : list Z :=
  if random_color0 then
    [(g pos mod 255)%Z; (g (pos + 1)%nat mod 255)%Z;
     (g (pos + 2)%nat mod 255)%Z; 50%Z]
  else
    match effs with
    | Some e => f_color_of (scale_color crystal_color (nth (snd j) e 0))
    | None => [255; 40; 40; 50]%Z
    end.

Definition paint (random_color0 : bool) (effs : option np.vector)
    (g : nat -> Z) (pos : nat) (j : job) : Trimesh :=
  {| geometry := fst j;
     face_colors := Some (job_color random_color0 effs g pos j) |}.

(** Raw words one colouring consumes. *)
Definition step (random_color0 : bool) : nat :=
  if random_color0 then 3%nat else 0%nat.

Fixpoint paint_all (random_color0 : bool) (effs : option np.vector)
    (g : nat -> Z) (pos : nat) (jobs : list job) : list Trimesh :=
  match jobs with
  | [] => []
  | j :: jobs' =>
      paint random_color0 effs g pos j
      :: paint_all random_color0 effs g (pos + step random_color0)%nat jobs'
  end.

(** The index of a job can be looked up in the mode at hand. *)
Definition index_ok (random_color0 : bool) (effs : option np.vector)
    (j : job) : Prop :=
  random_color0 = true
  \/ match effs with
     | Some e => (snd j < length e)%nat
     | None => True
     end.

(** A computation carries out [jobs]: it ends normally, appends the painted
    jobs to [shapes] and moves the generator on by their steps. *)
Definition paints {A} (random_color0 : bool) (effs : option np.vector)
    (m : M A) (jobs : list job) : Prop :=
  forall s,
    exists a s',
      m s = (inr a, s')
      /\ shapes s'
         = shapes s ++ paint_all random_color0 effs (rng s) (rng_pos s) jobs
      /\ rng s' = rng s
      /\ rng_pos s' = (rng_pos s + step random_color0 * length jobs)%nat.

Definition no_transform : RigidTransformation := {| matrix := [] |}.

(** The jobs of one group, one module instance, one module type and the
    scanner, with the indices the traversal computes. *)
Definition group_jobs (mod_i : nat) (mod_transform : RigidTransformation)
    (rep_volume : ReplicatedBoxSolidVolume.t) : list job :=
  let n := length (ReplicatedBoxSolidVolume.transforms rep_volume) in
  map (fun det_i =>
         (Mesh (element_corners mod_transform rep_volume
                  (nth det_i (ReplicatedBoxSolidVolume.transforms rep_volume)
                       no_transform))
               box_faces,
          (mod_i * n + det_i)%nat))
      (range n).

Definition module_jobs (det_el : list ReplicatedBoxSolidVolume.t)
    (placements : list RigidTransformation) (mod_i : nat) : list job :=
  flat_map (group_jobs mod_i (nth mod_i placements no_transform)) det_el.

Definition rep_module_jobs (rep_module : ReplicatedDetectorModule.t)
  : list job :=
  flat_map (module_jobs
              (detecting_elements (ReplicatedDetectorModule.object rep_module))
              (ReplicatedDetectorModule.transforms rep_module))
           (range (length (ReplicatedDetectorModule.transforms rep_module))).

Definition expected_jobs (header : Header) : list job :=
  flat_map rep_module_jobs
           (replicated_modules (scanner_geometry (scanner header))).

(** The cylinder of the field of view, uncoloured, when asked for. *)
Definition fov_meshes (args : Args) : list Trimesh :=
  match fov args with
  | Some (radius, height) =>
      [{| geometry := Cylinder radius height; face_colors := None |}]
  | None => []
  end.

(** The weights the extractor hands to the traversal when it does not
    exit. *)
Definition weights_of (flag : bool) (header : Header) : option np.vector :=
  match det_el_efficiencies (detection_efficiencies (scanner header)) with
  | Some table =>
      Some (np.mean_axis1 (if flag then table else np.ones (np.shape table)))
  | None => None
  end.

(** A solid in the base colour. *)
Definition base_colored (geom : Geometry) : Trimesh :=
  {| geometry := geom; face_colors := Some [255; 40; 40; 50]%Z |}.

(** A state with another generator behind [np.random]. *)
Definition with_rng (g : nat -> Z) (s : state) : state :=
  {| shapes := shapes s; vertices := vertices s;
     num_det_in_module := num_det_in_module s;
     rng := g; rng_pos := rng_pos s |}.

(** A computation that does not look at the generator: with another
    generator it ends the same way in the same state. *)
Definition agnostic {A} (m : M A) : Prop :=
  forall g s, m (with_rng g s) = (fst (m s), with_rng g (snd (m s))).

(** ** Headers of the declared shapes *)

(** A template box: 8 corners, each a 3-vector. *)
Definition is_box8 (b : BoxShape) : bool :=
  (length (corners b) =? 8)%nat && is_box b.

Definition is_group (rep_volume : ReplicatedBoxSolidVolume.t) : bool :=
  is_box8 (shape (ReplicatedBoxSolidVolume.object rep_volume))
  && forallb is_transform (ReplicatedBoxSolidVolume.transforms rep_volume).

Definition is_rep_module (rep_module : ReplicatedDetectorModule.t) : bool :=
  forallb is_transform (ReplicatedDetectorModule.transforms rep_module)
  && forallb is_group
       (detecting_elements (ReplicatedDetectorModule.object rep_module)).

(** A two-dimensional array: all rows as long as the first. *)
Definition is_table (table : np.ndarray) : bool :=
  forallb (fun row => (length row =? length (hd [] table))%nat) table.

(** The header has the shapes petsird declares: 3x4 transforms, boxes of 8
    corners with 3 coordinates, a rectangular efficiency table.  On such
    headers the list operations above are the NumPy operations. *)
Definition well_formed (header : Header) : bool :=
  forallb is_rep_module
    (replicated_modules (scanner_geometry (scanner header)))
  && match det_el_efficiencies (detection_efficiencies (scanner header)) with
     | Some table => is_table table
     | None => true
     end.

(** ** The transform algebra in binary64 *)

(** The same functions on IEEE binary64 numbers, rounding as NumPy's
    float64 does.  Sums run from the last term to the first; on the inputs
    used below every order of summation gives the same result, because all
    terms but two are zero. *)
Module f64.

Definition t : Type := spec_float.
Definition add : t -> t -> t := SFadd 53 1024.
Definition mul : t -> t -> t := SFmul 53 1024.
Definition zero : t := S754_zero false.
(** The power of two [2^k]. *)
Definition pow2 (k : Z) : t := S754_finite false (2 ^ 52) (k - 52).
Definition one : t := pow2 0.

Definition sum (v : list t) : t := fold_right add zero v.

Fixpoint zip_mul (u v : list t) : list t :=
  match u, v with
  | x :: u', y :: v' => mul x y :: zip_mul u' v'
  | _, _ => []
  end.

Definition dot (u v : list t) : t := sum (zip_mul u v).

Definition column (j : nat) (b : list (list t)) : list t :=
  map (fun row => nth j row zero) b.

Definition matmul (a b : list (list t)) : list (list t) :=
  map (fun row => map (fun j => dot row (column j b))
                      (seq 0 (length (hd [] b)))) a.

Definition matvec (a : list (list t)) (v : list t) : list t :=
  map (fun row => dot row v) a.

Definition transform_to_mat44 (m : list (list t)) : list (list t) :=
  m ++ [[zero; zero; zero; one]].

Definition mat44_to_transform (m : list (list t)) : list (list t) :=
  np.slice 0 3 m.

Definition eye4 : list (list t) :=
  [[one; zero; zero; zero]; [zero; one; zero; zero];
   [zero; zero; one; zero]; [zero; zero; zero; one]].

Definition mult_transforms (transforms : list (list (list t)))
  : list (list t) :=
  mat44_to_transform
    (fold_left (fun mat m => matmul (transform_to_mat44 m) mat)
               (rev transforms) eye4).

Definition mult_transforms_coord (transforms : list (list (list t)))
    (coord : list t) : list t :=
  np.slice 0 3
    (matvec (transform_to_mat44 (mult_transforms transforms))
            (coord ++ [one])).


End f64.

(** ** trimesh's constructor, as far as the box depends on it *)










(** * Theorems *)

(** ** Transform algebra *)

(** Destructs a transform or coordinate of known shape into its entries. *)
Ltac expose_shape H :=
  match type of H with
  | is_transform ?t = true =>
      let m := fresh "m" in
      destruct t as [m]; unfold is_transform in H; cbn [matrix] in H;
      apply andb_prop in H; destruct H as [H ?];
      do 4 (destruct m as [|?r m]; try discriminate H);
      cbn [forallb] in *;
      repeat match goal with
             | G : (_ && _)%bool = true |- _ =>
                 apply andb_prop in G; destruct G
             end;
      repeat match goal with
             | G : (length ?r =? 4)%nat = true |- _ =>
                 do 5 (destruct r as [|? r]; try discriminate G); clear G
             end;
      clear H
  | is_coordinate ?p = true =>
      let v := fresh "v" in
      destruct p as [v]; unfold is_coordinate in H; cbn [c] in H;
      do 4 (destruct v as [|? v]; try discriminate H); clear H
  end.

(** Unfolds the list plumbing of the transform algebra and leaves the
    rational arithmetic folded. *)
Ltac run_np :=
  cbv [apply_transform mult_transforms_coord mult_transforms transform_to_mat44
       mat44_to_transform coordinate_to_homogeneous homogeneous_to_coordinate
       np.vstack np.hstack np.slice np.matmul np.matvec np.dot np.sum
       np.zip_with np.column eye4 matrix c coord_eq
       rev fold_left fold_right app map seq nth hd length firstn skipn
       Nat.sub].

Lemma is_transform_rows (t : RigidTransformation) :
  is_transform t = true -> length (matrix t) = 3%nat.
Proof.
  unfold is_transform. intros H. apply andb_prop in H.
  destruct H as [H _]. now apply Nat.eqb_eq in H.
Qed.

(** [C10] Demoting the promoted 4x4 matrix of a 3x4 transform gives the
    transform back: promotion appends the row (0,0,0,1) below the three rows
    and demotion keeps exactly the first three rows. *)
Theorem mat44_roundtrip (t : RigidTransformation) :
  is_transform t = true ->
  transform_to_mat44 t = matrix t ++ [[0; 0; 0; 1]]
  /\ matrix (mat44_to_transform (transform_to_mat44 t)) = matrix t
  /\ mat44_to_transform (transform_to_mat44 t) = t.
Proof.
  intros H. split; [reflexivity|].
  pose proof (is_transform_rows t H) as L.
  assert (E : np.slice 0 3 (transform_to_mat44 t) = matrix t).
  { unfold np.slice, transform_to_mat44, np.vstack. cbn [skipn Nat.sub].
    rewrite <- L, firstn_app, Nat.sub_diag, firstn_all. cbn [firstn].
    apply app_nil_r. }
  split.
  - exact E.
  - destruct t as [m]. unfold mat44_to_transform. cbn [matrix] in E.
    now rewrite E.
Qed.

Lemma mat44_roundtrip_witness :
  is_transform quarter_turn = true
  /\ mat44_to_transform (transform_to_mat44 quarter_turn) = quarter_turn.
Proof.
  split; [reflexivity|].
  apply (mat44_roundtrip quarter_turn). reflexivity.
Defined.

Lemma mult_mat44_cons t ts :
  mult_mat44 (t :: ts) = np.matmul (transform_to_mat44 t) (mult_mat44 ts).
Proof.
  unfold mult_mat44. cbn [rev]. rewrite fold_left_app. reflexivity.
Qed.

(** Destructs rows of known length 4 into their entries. *)
Ltac expose_rows :=
  repeat match goal with
         | H : length ?r = 4%nat |- _ =>
             do 5 (destruct r as [|? r]; try discriminate H); clear H
         end.

Lemma homogeneous_matmul t m :
  is_transform t = true -> homogeneous m ->
  homogeneous (np.matmul (transform_to_mat44 t) m).
Proof.
  intros Ht (r1 & r2 & r3 & a & b & c0 & d & -> & L1 & L2 & L3 & Ha & Hb & Hc & Hd).
  expose_shape Ht. expose_rows. run_np.
  do 7 eexists. split; [reflexivity|].
  repeat split; try reflexivity; rewrite ?Ha, ?Hb, ?Hc, ?Hd; ring.
Qed.

Lemma homogeneous_is_transform m :
  homogeneous m -> is_transform (mat44_to_transform m) = true.
Proof.
  intros (r1 & r2 & r3 & a & b & c0 & d & -> & L1 & L2 & L3 & _).
  expose_rows. reflexivity.
Qed.

Lemma homogeneous_mult_mat44 ts :
  forallb is_transform ts = true -> homogeneous (mult_mat44 ts).
Proof.
  induction ts as [|t ts IH]; intros H.
  - do 7 eexists. split; [reflexivity|]. repeat split; reflexivity.
  - cbn [forallb] in H. apply andb_prop in H. destruct H as [Ht Hts].
    rewrite mult_mat44_cons. apply homogeneous_matmul; auto.
Qed.

Lemma apply_matmul t m p :
  is_transform t = true -> homogeneous m -> is_coordinate p = true ->
  coord_eq
    (apply_transform (mat44_to_transform (np.matmul (transform_to_mat44 t) m)) p)
    (apply_transform t (apply_transform (mat44_to_transform m) p)).
Proof.
  intros Ht (r1 & r2 & r3 & a & b & c0 & d & -> & L1 & L2 & L3 & Ha & Hb & Hc & Hd) Hp.
  expose_shape Ht. expose_shape Hp. expose_rows. run_np.
  repeat constructor; rewrite ?Ha, ?Hb, ?Hc, ?Hd; ring.
Qed.

Lemma apply_transform_coord_eq t p q :
  is_transform t = true -> is_coordinate p = true -> coord_eq p q ->
  coord_eq (apply_transform t p) (apply_transform t q).
Proof.
  intros Ht Hp Hpq. expose_shape Ht. expose_shape Hp.
  destruct q as [w]. unfold coord_eq in Hpq. cbn [c] in Hpq.
  inversion Hpq as [|? y1 ? w1 E1 Hpq1]; subst.
  inversion Hpq1 as [|? y2 ? w2 E2 Hpq2]; subst.
  inversion Hpq2 as [|? y3 ? w3 E3 Hpq3]; subst.
  inversion Hpq3; subst.
  run_np. repeat constructor; rewrite E1, E2, E3; ring.
Qed.

Lemma apply_transform_is_coordinate t p :
  is_transform t = true -> is_coordinate (apply_transform t p) = true.
Proof.
  intros Ht. expose_shape Ht. reflexivity.
Qed.

Lemma coord_eq_trans p q r : coord_eq p q -> coord_eq q r -> coord_eq p r.
Proof.
  unfold coord_eq. generalize (c p) (c q) (c r). clear.
  intros u v w H. revert w. induction H; intros w Hw; inversion Hw; subst.
  - constructor.
  - constructor; [eapply Qeq_trans; eauto | auto].
Qed.


(** Applying the composition of any list of transforms is applying them one
    after the other, the last of the list first. *)
Lemma mult_transforms_fold ts p :
  forallb is_transform ts = true -> is_coordinate p = true ->
  coord_eq (apply_transform (mult_transforms ts) p)
           (fold_right apply_transform p ts).
Proof.
  induction ts as [|t ts IH]; intros H Hp.
  - expose_shape Hp. run_np. repeat constructor; ring.
  - cbn [forallb] in H. apply andb_prop in H. destruct H as [Ht Hts].
    change (mult_transforms (t :: ts))
      with (mat44_to_transform (mult_mat44 (t :: ts))).
    rewrite mult_mat44_cons. cbn [fold_right].
    eapply coord_eq_trans.
    + apply apply_matmul; auto using homogeneous_mult_mat44.
    + apply apply_transform_coord_eq.
      * exact Ht.
      * apply apply_transform_is_coordinate.
        auto using homogeneous_is_transform, homogeneous_mult_mat44.
      * apply IH; assumption.
Qed.

Lemma apply_transform_affine (t : RigidTransformation) (p : Coordinate) :
  is_transform t = true -> is_coordinate p = true ->
  coord_eq (apply_transform t p) (affine t p)
  /\ is_coordinate (affine t p) = true.
Proof.
  intros Ht Hp. expose_shape Ht. expose_shape Hp. split; [|reflexivity].
  unfold affine. run_np. repeat constructor; ring.
Qed.

Lemma fold_apply_affine ts p :
  forallb is_transform ts = true -> is_coordinate p = true ->
  coord_eq (fold_right apply_transform p ts) (fold_right affine p ts)
  /\ is_coordinate (fold_right affine p ts) = true.
Proof.
  induction ts as [|t ts IH]; intros H Hp.
  - split; [|exact Hp]. cbn [fold_right]. unfold coord_eq.
    induction (c p); constructor; [reflexivity | assumption].
  - cbn [forallb] in H. apply andb_prop in H. destruct H as [Ht Hts].
    destruct (IH Hts Hp) as [IH1 IH2]. cbn [fold_right].
    destruct (apply_transform_affine t (fold_right affine p ts) Ht IH2)
      as [A1 A2].
    split; [|exact A2].
    assert (Hc : is_coordinate (fold_right apply_transform p ts) = true).
    { destruct ts as [|t' ts']; [exact Hp|]. cbn [forallb] in Hts.
      apply andb_prop in Hts. destruct Hts as [Ht' _]. cbn [fold_right].
      now apply apply_transform_is_coordinate. }
    eapply coord_eq_trans; [|exact A1].
    now apply apply_transform_coord_eq.
Qed.




(** The order matters: the two orders of a turn and a shift send the origin
    to different points. *)
Example mult_transforms_not_commutative :
  ~ coord_eq
      (apply_transform (mult_transforms [quarter_turn; translation 1 0 0])
                       {| c := [0; 0; 0] |})
      (apply_transform (mult_transforms [translation 1 0 0; quarter_turn])
                       {| c := [0; 0; 0] |}).
Proof.
  intros H. vm_compute in H. inversion H as [|? ? ? ? H1 _]; subst.
  discriminate H1.
Qed.

(** ** Solid synthesis *)










(** ** Efficiency extractor *)

(** [C1] With the flag set and no table in the header, the run ends in
    [SystemExit] carrying the message about the undefined detection
    efficiencies; it ends in the state it started in, so no solid has been
    built and no variable assigned; and the outcome differs from every
    normal end of a run, whatever solids that run has. *)
Theorem missing_table_is_fatal (args : Args) (header : Header) (g : nat -> Z) :
  show_det_eff args = true ->
  det_el_efficiencies (detection_efficiencies (scanner header)) = None ->
  main args header (initial_state g)
    = (inl (SystemExit missing_efficiencies_message), initial_state g)
  /\ run args header g = (inl (SystemExit missing_efficiencies_message), [])
  /\ (forall out, run args header g <> (inr tt, out))
  /\ String.index 0 "detection efficiencies is not defined"
       missing_efficiencies_message = Some 12%nat.
Proof.
  intros Hflag Htab.
  assert (E : main args header (initial_state g)
              = (inl (SystemExit missing_efficiencies_message), initial_state g)).
  { unfold main, bind, extract_detector_eff. rewrite Htab, Hflag. reflexivity. }
  split; [exact E|].
  unfold run. rewrite E. cbn [shapes initial_state].
  split; [reflexivity|]. split; [intros out; discriminate | reflexivity].
Qed.

Lemma sum_repeat_one (m : nat) :
  np.sum (repeat 1 m) == inject_Z (Z.of_nat m).
Proof.
  induction m as [|m IH].
  - reflexivity.
  - cbn [repeat np.sum fold_right]. fold (np.sum (repeat 1 m)).
    rewrite IH, Nat2Z.inj_succ. unfold Z.succ. rewrite inject_Z_plus. ring.
Qed.

Lemma mean_repeat_one (m : nat) :
  (0 < m)%nat -> np.mean (repeat 1 m) == 1.
Proof.
  intros Hm. unfold np.mean. rewrite repeat_length, sum_repeat_one.
  field. intros H.
  assert (Z.of_nat m = 0)%Z as Hz.
  { apply inject_Z_injective. exact H. }
  lia.
Qed.

(** [C2] (amended) With the flag off, the extractor returns the "no
    weighting" [None] exactly when the header has no table; when the header
    has a table with at least one energy bin it returns one weight per table
    row, each equal to 1.  It never raises and leaves the state alone. *)
Theorem flag_off_gives_none_or_ones (header : Header) (s : state) :
  (det_el_efficiencies (detection_efficiencies (scanner header)) = None ->
   extract_detector_eff false header s = (inr None, s))
  /\ (forall table,
        det_el_efficiencies (detection_efficiencies (scanner header))
          = Some table ->
        (0 < snd (np.shape table))%nat ->
        exists weights,
          extract_detector_eff false header s = (inr (Some weights), s)
          /\ length weights = fst (np.shape table)
          /\ Forall (fun w => w == 1) weights).
Proof.
  split.
  - intros H. unfold extract_detector_eff. rewrite H. reflexivity.
  - intros table H Hbins. unfold extract_detector_eff. rewrite H.
    eexists. split; [reflexivity|].
    unfold np.mean_axis1, np.ones. split.
    + now rewrite length_map, repeat_length.
    + apply Forall_forall. intros w Hw. apply in_map_iff in Hw.
      destruct Hw as (row & <- & Hrow). apply repeat_spec in Hrow. subst row.
      now apply mean_repeat_one.
Qed.

Lemma missing_table_is_fatal_witness :
  run (args_of false true false) (header_of [] None) raw_words
    = (inl (SystemExit missing_efficiencies_message), []).
Proof.
  apply (missing_table_is_fatal (args_of false true false)
           (header_of [] None) raw_words); reflexivity.
Defined.

(** [C2] as stated fails: with a table present and the flag off the
    extractor returns a vector of ones, not the sentinel.  ([2 # 2] is the
    mean of a row of two ones: their sum 2 over their count 2.) *)
Lemma flag_off_table_present_not_none :
  extract_detector_eff false (header_of [] (Some [[1 # 2; 1 # 4]; [3 # 4; 1]]))
    (initial_state raw_words)
    = (inr (Some [2 # 2; 2 # 2]), initial_state raw_words)
  /\ fst (extract_detector_eff false
            (header_of [] (Some [[1 # 2; 1 # 4]; [3 # 4; 1]]))
            (initial_state raw_words)) <> inr None.
Proof.
  split; [reflexivity | discriminate].
Qed.

Lemma flag_off_gives_none_or_ones_witness :
  exists weights,
    extract_detector_eff false
      (header_of [] (Some [[1 # 2; 1 # 4]; [3 # 4; 1]]))
      (initial_state raw_words)
    = (inr (Some weights), initial_state raw_words)
    /\ length weights = 2%nat
    /\ Forall (fun w => w == 1) weights.
Proof.
  destruct (flag_off_gives_none_or_ones
              (header_of [] (Some [[1 # 2; 1 # 4]; [3 # 4; 1]]))
              (initial_state raw_words)) as [_ H].
  apply (H [[1 # 2; 1 # 4]; [3 # 4; 1]]); [reflexivity | cbn; lia].
Defined.

(** ** Colour assignment *)

Lemma Qtrunc_inject_Z (z : Z) : Qtrunc (inject_Z z) = z.
Proof.
  unfold Qtrunc. destruct (Qle_bool 0 (inject_Z z)).
  - apply Qfloor_Z.
  - apply Qceiling_Z.
Qed.

Lemma Qtrunc_comp (x y : Q) : x == y -> Qtrunc x = Qtrunc y.
Proof.
  intros H. unfold Qtrunc.
  assert (E : Qle_bool 0 x = Qle_bool 0 y).
  { apply eq_true_iff_eq. rewrite !Qle_bool_iff. now rewrite H. }
  rewrite E. destruct (Qle_bool 0 y); now rewrite H.
Qed.

(** What [set_detector_color] does in efficiency mode when the index is in
    range: the three channels are the integer parts of the scaled constant,
    reduced modulo 256, and nothing else happens. *)
Lemma set_detector_color_efficiency (det_mesh : Trimesh) (effs : np.vector)
    (mod_i n det_i : nat) (e : Q) (s : state) :
  nth_error effs (mod_i * n + det_i) = Some e ->
  set_detector_color det_mesh (Some effs) mod_i n det_i false s
  = (inr (set_face_colors det_mesh
            [(Qtrunc (255 * e) mod 256)%Z; (Qtrunc (40 * e) mod 256)%Z;
             (Qtrunc (40 * e) mod 256)%Z; 50%Z]), s).
Proof.
  intros H. unfold set_detector_color, bind, index. rewrite H. reflexivity.
Qed.

Lemma set_detector_color_default (det_mesh : Trimesh) (mod_i n det_i : nat)
    (s : state) :
  set_detector_color det_mesh None mod_i n det_i false s
  = (inr (set_face_colors det_mesh [255; 40; 40; 50]%Z), s).
Proof. reflexivity. Qed.

(** [C7] In efficiency mode, an element whose efficiency is exactly 1 gets
    exactly the colour of the unweighted mode: the base crystal RGB
    (255, 40, 40) with alpha 50. *)
Theorem efficiency_one_is_default_color (det_mesh : Trimesh)
    (effs : np.vector) (mod_i n det_i : nat) (e : Q) (s : state) :
  nth_error effs (mod_i * n + det_i) = Some e ->
  e == 1 ->
  set_detector_color det_mesh (Some effs) mod_i n det_i false s
  = set_detector_color det_mesh None mod_i n det_i false s
  /\ set_detector_color det_mesh (Some effs) mod_i n det_i false s
     = (inr (set_face_colors det_mesh [255; 40; 40; 50]%Z), s).
Proof.
  intros Hk He.
  assert (E : forall z, Qtrunc (inject_Z z * e) = z).
  { intros z. rewrite <- (Qtrunc_inject_Z z) at 2. apply Qtrunc_comp.
    rewrite He. ring. }
  rewrite set_detector_color_default, (set_detector_color_efficiency _ _ _ _ _ e) by exact Hk.
  change 255 with (inject_Z 255). change 40 with (inject_Z 40).
  rewrite !E. split; reflexivity.
Qed.

Lemma efficiency_one_is_default_color_witness :
  set_detector_color (create_box_from_vertices []) (Some [1 # 2; 3 # 3]) 0 2 1
    false (initial_state raw_words)
  = (inr (set_face_colors (create_box_from_vertices []) [255; 40; 40; 50]%Z),
     initial_state raw_words).
Proof.
  apply (efficiency_one_is_default_color (create_box_from_vertices [])
           [1 # 2; 3 # 3] 0 2 1 (3 # 3) (initial_state raw_words));
    reflexivity.
Defined.

Lemma draw_range (s : state) (i : nat) : (0 <= draw s i <= 254)%Z.
Proof.
  unfold draw. pose proof (Z.mod_pos_bound (rng s (rng_pos s + i)%nat) 255).
  lia.
Qed.

Lemma uint8_of_draw (s : state) (i : nat) :
  astype_uint8 (Int (0 + rng s (rng_pos s + i)%nat mod (255 - 0)))
  = draw s i.
Proof.
  pose proof (draw_range s i) as H. unfold draw in *.
  cbn [astype_uint8]. rewrite Z.add_0_l, Z.sub_0_r.
  apply Z.mod_small. lia.
Qed.

Lemma random_f_color (s : state) :
  f_color_of
    (map Int (map (fun i => (0 + rng s (rng_pos s + i)%nat mod (255 - 0))%Z)
                  (seq 0 3)))
  = [draw s 0; draw s 1; draw s 2; 50%Z].
Proof.
  unfold f_color_of, channel. cbn [seq map nth].
  rewrite !uint8_of_draw. reflexivity.
Qed.

Lemma set_detector_color_random (det_mesh : Trimesh)
    (effs : option np.vector) (mod_i n det_i : nat) (s : state) :
  set_detector_color det_mesh effs mod_i n det_i true s
  = (inr (set_face_colors det_mesh [draw s 0; draw s 1; draw s 2; 50%Z]),
     advance 3 s).
Proof.
  unfold set_detector_color, bind, randint, ret. cbn [Z.ltb Z.compare].
  rewrite random_f_color. reflexivity.
Qed.

Lemma set_module_color_random (module_mesh : Trimesh)
    (effs : option np.vector) (mod_i n : nat)
    (det_el : list ReplicatedBoxSolidVolume.t) (s : state) :
  set_module_color module_mesh effs mod_i n det_el true s
  = (inr (set_face_colors module_mesh [draw s 0; draw s 1; draw s 2; 50%Z]),
     advance 3 s).
Proof.
  unfold set_module_color, bind, randint, ret. cbn [Z.ltb Z.compare].
  rewrite random_f_color. reflexivity.
Qed.

(** [C8] What the code does in random-colour mode, for elements and for
    modules: the three channels are the draws of [randint(0, 255)] from the
    next three raw words, so each lies in 0..254 and 255 never occurs; alpha
    is 50; the efficiency table plays no part. *)
Theorem random_color_never_255 (m : Trimesh) (effs effs' : option np.vector)
    (mod_i n det_i : nat) (det_el : list ReplicatedBoxSolidVolume.t)
    (s : state) :
  exists r g b,
    set_detector_color m effs mod_i n det_i true s
      = (inr (set_face_colors m [r; g; b; 50%Z]), advance 3 s)
    /\ set_module_color m effs mod_i n det_el true s
      = (inr (set_face_colors m [r; g; b; 50%Z]), advance 3 s)
    /\ set_detector_color m effs' mod_i n det_i true s
      = set_detector_color m effs mod_i n det_i true s
    /\ set_module_color m effs' mod_i n det_el true s
      = set_module_color m effs mod_i n det_el true s
    /\ (0 <= r <= 254)%Z /\ (0 <= g <= 254)%Z /\ (0 <= b <= 254)%Z
    /\ r <> 255%Z /\ g <> 255%Z /\ b <> 255%Z.
Proof.
  exists (draw s 0), (draw s 1), (draw s 2).
  rewrite !set_detector_color_random, !set_module_color_random.
  pose proof (draw_range s 0). pose proof (draw_range s 1).
  pose proof (draw_range s 2).
  repeat split; lia.
Qed.

(** Even the raw word 255 gives the channel 0, not 255. *)
Example random_color_raw_255 :
  set_detector_color (create_box_from_vertices []) None 0 1 0 true
    (initial_state (fun _ => 255%Z))
  = (inr (set_face_colors (create_box_from_vertices []) [0; 0; 0; 50]%Z),
     advance 3 (initial_state (fun _ => 255%Z))).
Proof. reflexivity. Qed.

(** ** The efficiency index of the traversal *)

(** In per-element efficiency mode the element [det_i] of a group with [n]
    instances is coloured by the entry [mod_i * n + det_i], whichever groups
    came before it in the module. *)
Lemma element_body_efficiency_index (args : Args) (effs : np.vector)
    (mod_i : nat) (mod_transform : RigidTransformation)
    (rep_volume : ReplicatedBoxSolidVolume.t) (n det_i : nat)
    (t : RigidTransformation) (e : Q) (s : state) :
  modules_only args = false -> random_color args = false ->
  nth_error (ReplicatedBoxSolidVolume.transforms rep_volume) det_i = Some t ->
  nth_error effs (mod_i * n + det_i) = Some e ->
  element_body args (Some effs) mod_i mod_transform rep_volume n det_i s
  = shapes_append
      (set_face_colors
         (create_box_from_vertices
            (element_corners mod_transform rep_volume t))
         (f_color_of (scale_color crystal_color e))) s.
Proof.
  intros Hmode Hrand Ht He.
  unfold element_body, bind, index. rewrite Ht, Hmode, Hrand.
  cbn [negb ret]. unfold set_detector_color, bind, index. rewrite He.
  reflexivity.
Qed.

(** [C3] On one module instance with two groups of one element each and the
    weights (1, 0), the traversal colours both solids with weight 1, the
    entry at index 0: the index restarts with each group and its stride is
    the size of the current group.  By the spec's index the second element
    has index 1 and the colour (0, 0, 0, 50).  The per-module colouring of
    the same header reads both entries for the one module. *)
Theorem element_index_restarts_per_group :
  map face_colors (snd (run (args_of false true false) two_group_header raw_words))
    = [Some [255; 40; 40; 50]%Z; Some [255; 40; 40; 50]%Z]
  /\ fst (run (args_of false true false) two_group_header raw_words) = inr tt
  /\ spec_efficiency_index 0 2 1 = 1%nat
  /\ spec_element_color [1; 0] (spec_efficiency_index 0 2 1) = [0; 0; 0; 50]%Z
  /\ map face_colors (snd (run (args_of true true false) two_group_header raw_words))
    = [Some [127; 20; 20; 50]%Z].
Proof.
  repeat split; vm_compute; reflexivity.
Qed.

(** ** Traversal in per-module mode *)

Lemma set_vertices_same (s : state) : set_vertices (vertices s) s = s.
Proof. now destruct s. Qed.

Lemma set_num_same (s : state) : set_num (num_det_in_module s) s = s.
Proof. now destruct s. Qed.

Lemma skipn_cons_nth_error {A} (l : list A) (a : nat) (t : A) :
  nth_error l a = Some t -> skipn a l = t :: skipn (S a) l.
Proof.
  revert a. induction l as [|x l IH]; intros [|a] H; try discriminate H.
  - injection H as ->. reflexivity.
  - cbn [nth_error] in H. cbn [skipn]. rewrite (IH a H). reflexivity.
Qed.

Section PerModule.

Variable args : Args.
Variable detector_efficiencies : option np.vector.
Hypothesis Hmode : modules_only args = true.

Lemma element_body_accumulates mod_i mod_transform rep_volume n det_i t s :
  nth_error (ReplicatedBoxSolidVolume.transforms rep_volume) det_i = Some t ->
  element_body args detector_efficiencies mod_i mod_transform rep_volume
    n det_i s
  = (inr tt,
     set_vertices
       (vertices s ++ [element_corners mod_transform rep_volume t]) s).
Proof.
  intros H. unfold element_body, bind, index. rewrite H, Hmode.
  reflexivity.
Qed.

Lemma element_loop_accumulates mod_i mod_transform rep_volume n :
  forall k a s,
    (a + k = length (ReplicatedBoxSolidVolume.transforms rep_volume))%nat ->
    for_each (seq a k)
      (element_body args detector_efficiencies mod_i mod_transform
         rep_volume n) s
    = (inr tt,
       set_vertices
         (vertices s
          ++ map (element_corners mod_transform rep_volume)
               (skipn a (ReplicatedBoxSolidVolume.transforms rep_volume)))
         s).
Proof.
  induction k as [|k IH]; intros a s Hlen.
  - cbn [seq for_each]. rewrite skipn_all2 by lia. cbn [map].
    rewrite app_nil_r, set_vertices_same. reflexivity.
  - cbn [seq for_each]. unfold bind.
    destruct (nth_error (ReplicatedBoxSolidVolume.transforms rep_volume) a)
      as [t|] eqn:Ht.
    2:{ apply nth_error_None in Ht. lia. }
    rewrite (element_body_accumulates _ _ _ _ _ t) by exact Ht.
    rewrite IH by lia.
    pose proof (skipn_cons_nth_error _ _ _ Ht) as Hsk.
    rewrite Hsk. unfold set_vertices. cbn [vertices shapes num_det_in_module rng rng_pos map].
    rewrite <- app_assoc. reflexivity.
Qed.

Lemma group_body_accumulates mod_i mod_transform rep_volume s :
  group_body args detector_efficiencies mod_i mod_transform rep_volume s
  = (inr tt,
     set_vertices
       (vertices s
        ++ map (element_corners mod_transform rep_volume)
             (ReplicatedBoxSolidVolume.transforms rep_volume))
       (set_num
          (Some (length (ReplicatedBoxSolidVolume.transforms rep_volume)))
          s)).
Proof.
  unfold group_body, bind, assign_num_det_in_module, read_num_det_in_module.
  cbn [num_det_in_module]. unfold range.
  rewrite element_loop_accumulates by reflexivity.
  reflexivity.
Qed.

Lemma group_loop_accumulates mod_i mod_transform :
  forall det_el s,
    for_each det_el
      (group_body args detector_efficiencies mod_i mod_transform) s
    = (inr tt,
       set_vertices (vertices s ++ module_corners det_el mod_transform)
         (set_num (last_num det_el (num_det_in_module s)) s)).
Proof.
  induction det_el as [|rep_volume det_el IH]; intros s.
  - cbn [for_each module_corners flat_map last_num fold_left].
    rewrite app_nil_r, set_num_same, set_vertices_same. reflexivity.
  - cbn [for_each]. unfold bind. rewrite group_body_accumulates, IH.
    unfold set_vertices, set_num, module_corners, last_num.
    cbn [vertices shapes num_det_in_module rng rng_pos flat_map fold_left].
    rewrite <- app_assoc. reflexivity.
Qed.

End PerModule.

Lemma emits_ret {A} (a : A) : emits (ret a) [].
Proof.
  intros s r s' E. injection E as <- <-. exists []. cbn.
  now rewrite app_nil_r.
Qed.

Lemma emits_bind {A B} (m : M A) (k : A -> M B) (e1 e2 : list Geometry) :
  emits m e1 -> (forall a, emits (k a) e2) -> emits (bind m k) (e1 ++ e2).
Proof.
  intros Hm Hk s r s' E. unfold bind in E.
  destruct (m s) as [[e|a] s1] eqn:E1.
  - injection E as <- <-. destruct (Hm _ _ _ E1) as (d1 & Hs1 & rest & ->).
    exists d1. split; [exact Hs1|]. exists (rest ++ e2).
    now rewrite app_assoc.
  - destruct (Hm _ _ _ E1) as (d1 & Hs1 & Hr1). cbn [emitted] in Hr1.
    subst d1. destruct (Hk a _ _ _ E) as (d2 & Hs2 & Hr2).
    exists (e1 ++ d2). split.
    + rewrite Hs2, Hs1. now rewrite app_assoc.
    + destruct r; cbn [emitted] in *.
      * destruct Hr2 as (rest & ->). exists rest. now rewrite app_assoc.
      * now subst.
Qed.

Lemma emits_for_each {A} (xs : list A) (body : A -> M unit)
    (f : A -> list Geometry) :
  (forall x, In x xs -> emits (body x) (f x)) ->
  emits (for_each xs body) (flat_map f xs).
Proof.
  induction xs as [|x xs IH]; intros H.
  - apply emits_ret.
  - cbn [for_each flat_map]. apply emits_bind.
    + apply H. now left.
    + intros _. apply IH. intros y Hy. apply H. now right.
Qed.

Lemma emits_shapes_append (m : Trimesh) :
  emits (shapes_append m) [geometry m].
Proof.
  intros s r s' E. injection E as <- <-. exists [geometry m]. cbn.
  split; [|reflexivity]. now rewrite map_app.
Qed.

(** Colouring a module mesh keeps its geometry and touches no solid. *)
Lemma set_module_color_keeps_geometry (m : Trimesh) effs mod_i n det_el rc s :
  shapes (snd (set_module_color m effs mod_i n det_el rc s)) = shapes s
  /\ match fst (set_module_color m effs mod_i n det_el rc s) with
     | inr m' => geometry m' = geometry m
     | inl _ => True
     end.
Proof.
  destruct rc.
  - rewrite set_module_color_random. split; reflexivity.
  - unfold set_module_color, bind. destruct effs as [effs|].
    + unfold reshape_row.
      destruct (length det_el * n =? 0)%nat; [split; [reflexivity | exact I]|].
      destruct (negb (length effs mod (length det_el * n) =? 0)%nat);
        [split; [reflexivity | exact I]|].
      destruct (mod_i <? length effs / (length det_el * n))%nat;
        split; try reflexivity; exact I.
    + split; reflexivity.
Qed.

Section PerModuleEmits.

Variable args : Args.
Variable detector_efficiencies : option np.vector.
Hypothesis Hmode : modules_only args = true.

Lemma module_body_emits rep_module det_el mod_i mod_transform :
  nth_error (ReplicatedDetectorModule.transforms rep_module) mod_i
    = Some mod_transform ->
  emits (module_body args detector_efficiencies rep_module det_el mod_i)
        [module_hull det_el mod_transform].
Proof.
  intros Hnth s r s' E.
  unfold module_body, bind, assign_vertices, index in E.
  rewrite Hnth in E. unfold ret at 1 in E.
  rewrite (group_loop_accumulates args detector_efficiencies Hmode) in E.
  rewrite Hmode in E. unfold read_vertices, read_num_det_in_module in E.
  cbn [vertices set_vertices set_num num_det_in_module app shapes] in E.
  destruct (last_num det_el (num_det_in_module s)) as [n|].
  2:{ injection E as <- <-. exists []. cbn. rewrite app_nil_r.
      split; [reflexivity|]. eexists. reflexivity. }
  match type of E with
  | context [set_module_color ?m ?e ?i ?k ?d ?rc ?st] =>
      pose proof (set_module_color_keeps_geometry m e i k d rc st) as [Hsh Hg];
      destruct (set_module_color m e i k d rc st) as [[e0|m'] s3]
  end; cbn [fst snd] in *; injection E as <- <-.
  - exists []. rewrite Hsh. cbn. rewrite app_nil_r. split; [reflexivity|].
    eexists. reflexivity.
  - exists [module_hull det_el mod_transform]. cbn. rewrite Hsh. cbn.
    rewrite map_app. cbn. rewrite Hg. split; reflexivity.
Qed.

Lemma map_nth_range {A} (d : A) (l : list A) :
  map (fun i => nth i l d) (seq 0 (length l)) = l.
Proof.
  induction l as [|x l IH]; cbn [length seq map nth]; [reflexivity|].
  f_equal. rewrite <- seq_shift, map_map. exact IH.
Qed.

Lemma flat_map_nth_range {A B} (f : A -> B) (d : A) (l : list A) :
  flat_map (fun i => [f (nth i l d)]) (range (length l)) = map f l.
Proof.
  unfold range. rewrite flat_map_concat_map.
  rewrite <- (map_map (fun i => f (nth i l d)) (fun x => [x])).
  rewrite <- (map_map (fun i => nth i l d) f), map_nth_range.
  rewrite <- flat_map_concat_map. induction (map f l) as [|x r IH].
  - reflexivity.
  - cbn. now rewrite IH.
Qed.

Lemma rep_module_body_emits rep_module :
  emits (rep_module_body args detector_efficiencies rep_module)
        (map (module_hull
                (detecting_elements
                   (ReplicatedDetectorModule.object rep_module)))
             (ReplicatedDetectorModule.transforms rep_module)).
Proof.
  unfold rep_module_body.
  rewrite <- (flat_map_nth_range _ {| matrix := [] |}).
  apply emits_for_each. intros mod_i Hin.
  apply in_seq in Hin.
  apply module_body_emits.
  apply nth_error_nth'. lia.
Qed.

End PerModuleEmits.

(** ** The hull of the two cubes *)

Lemma weighted_sum_bounds (k : nat) (lo hi : Q) :
  forall pts ws,
    length ws = length pts ->
    Forall (fun p => lo <= nth k p 0 /\ nth k p 0 <= hi) pts ->
    Forall (fun w => 0 <= w) ws ->
    lo * np.sum ws <= weighted_sum k ws pts
    /\ weighted_sum k ws pts <= hi * np.sum ws.
Proof.
  induction pts as [|p pts IH]; intros [|w ws] Hlen Hpts Hws;
    try discriminate Hlen.
  - unfold weighted_sum. cbn [combine map np.sum fold_right]. split; lra.
  - inversion Hpts as [|? ? [Hlo Hhi] Hpts']; subst.
    inversion Hws as [|? ? Hw Hws']; subst.
    injection Hlen as Hlen.
    destruct (IH ws Hlen Hpts' Hws') as [IH1 IH2].
    unfold weighted_sum in *. cbn [combine map fst snd].
    unfold np.sum in *. cbn [fold_right].
    set (S := fold_right Qplus 0 ws) in *.
    set (W := fold_right Qplus 0 _) in *.
    assert (0 <= w * (nth k p 0 - lo)) by (apply Qmult_le_0_compat; lra).
    assert (0 <= w * (hi - nth k p 0)) by (apply Qmult_le_0_compat; lra).
    split; lra.
Qed.

Lemma sixteen_corners_in_box :
  Forall (fun p => (-(1#2) <= nth 0 p 0 /\ nth 0 p 0 <= 3#2)) sixteen_corners
  /\ Forall (fun p => (-(1#2) <= nth 1 p 0 /\ nth 1 p 0 <= 1#2)) sixteen_corners
  /\ Forall (fun p => (-(1#2) <= nth 2 p 0 /\ nth 2 p 0 <= 1#2)) sixteen_corners.
Proof.
  unfold sixteen_corners.
  repeat split; repeat (constructor; [cbn [nth]; split; discriminate|]);
    constructor.
Qed.

Lemma hull_of_sixteen_corners (x y z : Q) :
  in_hull sixteen_corners x y z <-> in_box_2_1_1 x y z.
Proof.
  split.
  - intros (ws & Hlen & Hws & Hsum & Hx & Hy & Hz).
    destruct sixteen_corners_in_box as (Bx & By & Bz).
    pose proof (weighted_sum_bounds 0 _ _ _ _ Hlen Bx Hws) as [X1 X2].
    pose proof (weighted_sum_bounds 1 _ _ _ _ Hlen By Hws) as [Y1 Y2].
    pose proof (weighted_sum_bounds 2 _ _ _ _ Hlen Bz Hws) as [Z1 Z2].
    rewrite Hsum in *. rewrite Hx in *. rewrite Hy in *. rewrite Hz in *.
    unfold in_box_2_1_1. lra.
  - intros ((X1 & X2) & (Y1 & Y2) & (Z1 & Z2)).
    exists (box_weights x y z).
    assert (A0 : 0 <= (x + (1#2)) / 2) by (apply Qle_shift_div_l; lra).
    assert (A1 : 0 <= 1 - (x + (1#2)) / 2).
    { assert ((x + (1#2)) / 2 <= 1) by (apply Qle_shift_div_r; lra). lra. }
    assert (B0 : 0 <= y + (1#2)) by lra.
    assert (B1 : 0 <= 1 - (y + (1#2))) by lra.
    assert (D0 : 0 <= z + (1#2)) by lra.
    assert (D1 : 0 <= 1 - (z + (1#2))) by lra.
    split; [reflexivity|]. split.
    { unfold box_weights.
      repeat (constructor;
              [first [apply Qle_refl
                     | repeat (first [assumption
                                     | apply Qmult_le_0_compat])]|]).
      constructor. }
    unfold weighted_sum, sixteen_corners, box_weights.
    cbn [combine map np.sum fold_right fst snd nth].
    repeat split; field.
Qed.

(** ** Per-module mode, whole run *)

Lemma length_expected_hulls (header : Header) :
  length (expected_hulls header) = module_instances header.
Proof.
  unfold expected_hulls, module_instances.
  induction (replicated_modules (scanner_geometry (scanner header)))
    as [|rep_module mods IH].
  - reflexivity.
  - cbn [flat_map map list_sum fold_right]. rewrite length_app, length_map, IH.
    reflexivity.
Qed.

Lemma main_emits_hulls (args : Args) (header : Header) (g : nat -> Z) r s' :
  modules_only args = true ->
  main args header (initial_state g) = (r, s') ->
  exists done,
    map geometry (shapes s') = done
    /\ emitted r done (expected_hulls header ++ fov_geometry args).
Proof.
  intros Hmode E. unfold main in E. unfold bind at 1 in E.
  destruct (extract_detector_eff (show_det_eff args) header (initial_state g))
    as [[e|effs] s1] eqn:Ex.
  - injection E as <- <-. exists [].
    unfold extract_detector_eff in Ex.
    destruct (det_el_efficiencies (detection_efficiencies (scanner header)));
      [discriminate Ex|].
    destruct (show_det_eff args); [|discriminate Ex].
    injection Ex as _ <-. split; [reflexivity|]. eexists. reflexivity.
  - unfold bind at 1, assign_shapes in E.
    assert (T : emits
                  (for_each (replicated_modules (scanner_geometry (scanner header)))
                     (rep_module_body args effs) ;;
                   match fov args with
                   | Some (radius, height) =>
                       shapes_append {| geometry := Cylinder radius height;
                                        face_colors := None |}
                   | None => ret tt
                   end)
                  (expected_hulls header ++ fov_geometry args)).
    { apply emits_bind.
      - apply emits_for_each. intros rep_module _.
        now apply rep_module_body_emits.
      - intros _. unfold fov_geometry. destruct (fov args) as [[radius height]|].
        + apply (emits_shapes_append
                   {| geometry := Cylinder radius height; face_colors := None |}).
        + apply emits_ret. }
    destruct (T _ _ _ E) as (done & Hs & Hr). cbn [shapes map app] in Hs.
    exists done. split; assumption.
Qed.

(** [C6] In per-module mode a run that ends normally has emitted exactly one
    solid per module instance, in traversal order, each the convex hull of
    all corners of all groups and instances of that module instance (plus
    the cylinder when a field of view is asked for); a run that raises has
    emitted an initial part of that list.  On the scanner with one module
    instance and one group of two unit cubes shifted by (0,0,0) and (1,0,0)
    the run ends normally with one solid, the hull of the 16 accumulated
    corners, and the convex combinations of those corners are exactly the
    points of a 2 x 1 x 1 box. *)
Theorem per_module_mode_one_hull_per_module (args : Args) (header : Header)
    (g : nat -> Z) :
  modules_only args = true ->
  length (expected_hulls header) = module_instances header
  /\ (forall out,
        run args header g = (inr tt, out) ->
        map geometry out = expected_hulls header ++ fov_geometry args
        /\ (fov args = None -> length out = module_instances header))
  /\ (forall e out,
        run args header g = (inl e, out) ->
        exists rest,
          expected_hulls header ++ fov_geometry args
          = map geometry out ++ rest)
  /\ run (args_of true false false) two_cube_header g
     = (inr tt, [ {| geometry := ConvexHull sixteen_corners;
                     face_colors := Some [255; 40; 40; 50]%Z |} ])
  /\ length sixteen_corners = 16%nat
  /\ Forall2 (Forall2 Qeq) sixteen_corners two_cube_corners
  /\ (forall x y z, in_hull sixteen_corners x y z <-> in_box_2_1_1 x y z).
Proof.
  intros Hmode. split; [apply length_expected_hulls|].
  split; [|split].
  - intros out E. unfold run in E.
    destruct (main args header (initial_state g)) as [r s'] eqn:Em.
    injection E as -> <-.
    destruct (main_emits_hulls _ _ _ _ _ Hmode Em) as (done & Hs & Hr).
    cbn [emitted] in Hr. subst done. split; [exact Hr|].
    intros Hfov. rewrite <- (length_map geometry), Hr.
    unfold fov_geometry. rewrite Hfov, app_nil_r.
    apply length_expected_hulls.
  - intros e out E. unfold run in E.
    destruct (main args header (initial_state g)) as [r s'] eqn:Em.
    injection E as -> <-.
    destruct (main_emits_hulls _ _ _ _ _ Hmode Em) as (done & Hs & Hr).
    cbn [emitted] in Hr. subst done. exact Hr.
  - split; [reflexivity|]. split; [reflexivity|].
    split; [|apply hull_of_sixteen_corners].
    unfold sixteen_corners, two_cube_corners.
    repeat (constructor; [repeat (constructor; [reflexivity|]); constructor|]).
    constructor.
Qed.

Lemma per_module_mode_one_hull_per_module_witness :
  modules_only (args_of true false false) = true
  /\ map geometry
       (snd (run (args_of true false false) two_cube_header raw_words))
     = [ConvexHull sixteen_corners].
Proof.
  split; [reflexivity|].
  destruct (per_module_mode_one_hull_per_module (args_of true false false)
              two_cube_header raw_words eq_refl) as (_ & H & _).
  destruct (H (snd (run (args_of true false false) two_cube_header raw_words))
              eq_refl) as [Hg _].
  exact Hg.
Defined.

(** * Further properties of the program *)

(** ** Transform algebra *)

(** [X1] Demoting the promoted 4-vector of a 3-vector gives the point back:
    promotion appends a 1 and demotion keeps the first three entries. *)
Theorem homogeneous_roundtrip (p : Coordinate) :
  is_coordinate p = true ->
  coordinate_to_homogeneous p = c p ++ [1]
  /\ homogeneous_to_coordinate (coordinate_to_homogeneous p) = p.
Proof.
  intros H. split; [reflexivity|]. expose_shape H. reflexivity.
Qed.

Lemma homogeneous_roundtrip_witness :
  homogeneous_to_coordinate (coordinate_to_homogeneous {| c := [1; 2 # 3; -5] |})
  = {| c := [1; 2 # 3; -5] |}.
Proof.
  apply (homogeneous_roundtrip {| c := [1; 2 # 3; -5] |}). reflexivity.
Defined.

(** [X2] Applying one transform to a point, which the program does by
    composing the one-element list with the identity, promoting and
    demoting, is the affine map of the matrix: rotation block times the
    point plus the translation column. *)
Theorem apply_is_affine (t : RigidTransformation) (p : Coordinate) :
  is_transform t = true -> is_coordinate p = true ->
  coord_eq (mult_transforms_coord [t] p) (affine t p).
Proof.
  intros Ht Hp. expose_shape Ht. expose_shape Hp.
  unfold affine. run_np. repeat constructor; ring.
Qed.

Lemma apply_is_affine_witness :
  coord_eq (mult_transforms_coord [quarter_turn] {| c := [1; 2; 3] |})
           (affine quarter_turn {| c := [1; 2; 3] |}).
Proof.
  apply (apply_is_affine quarter_turn {| c := [1; 2; 3] |}); reflexivity.
Defined.

Lemma fold_apply_coord_eq ts p q :
  forallb is_transform ts = true -> is_coordinate p = true -> coord_eq p q ->
  coord_eq (fold_right apply_transform p ts) (fold_right apply_transform q ts)
  /\ is_coordinate (fold_right apply_transform p ts) = true.
Proof.
  induction ts as [|t ts IH]; intros H Hp Hpq.
  - split; assumption.
  - cbn [forallb] in H. apply andb_prop in H. destruct H as [Ht Hts].
    destruct (IH Hts Hp Hpq) as [IH1 IH2]. cbn [fold_right]. split.
    + now apply apply_transform_coord_eq.
    + now apply apply_transform_is_coordinate.
Qed.

Lemma mult_transforms_is_transform ts :
  forallb is_transform ts = true -> is_transform (mult_transforms ts) = true.
Proof.
  intros H. apply homogeneous_is_transform, homogeneous_mult_mat44, H.
Qed.

Lemma coord_eq_sym p q : coord_eq p q -> coord_eq q p.
Proof.
  unfold coord_eq. generalize (c p) (c q). clear.
  intros u v H. induction H; constructor; [now symmetry | assumption].
Qed.

(** [X4] The composition of 3x4 transforms, also of none, is again a 3x4
    transform, composing a single transform gives it back entry for entry,
    and applying a list of transforms to a 3-vector gives a 3-vector. *)
Theorem mult_transforms_closed (ts : list RigidTransformation)
    (t : RigidTransformation) (p : Coordinate) :
  forallb is_transform ts = true -> is_transform t = true ->
  is_coordinate p = true ->
  is_transform (mult_transforms ts) = true
  /\ transform_eq (mult_transforms [t]) t
  /\ is_coordinate (mult_transforms_coord ts p) = true.
Proof.
  intros Hts Ht Hp. split; [now apply mult_transforms_is_transform|]. split.
  - expose_shape Ht. unfold transform_eq. run_np.
    repeat (constructor; [repeat (constructor; [ring|]); constructor|]).
    constructor.
  - destruct (homogeneous_mult_mat44 ts Hts)
      as (r1 & r2 & r3 & a & b & c0 & d & E & L1 & L2 & L3 & _).
    unfold mult_transforms_coord, mult_transforms. fold (mult_mat44 ts).
    rewrite E. reflexivity.
Qed.

Lemma mult_transforms_closed_witness :
  is_transform (mult_transforms [quarter_turn; translation 1 2 3]) = true.
Proof.
  apply (mult_transforms_closed [quarter_turn; translation 1 2 3]
           quarter_turn {| c := [0; 0; 0] |}); reflexivity.
Defined.

Lemma Forall2_map_same {A B} (R : B -> B -> Prop) (f g : A -> B) (l : list A) :
  (forall x, In x l -> R (f x) (g x)) -> Forall2 R (map f l) (map g l).
Proof.
  induction l as [|x l IH]; intros H; cbn [map]; constructor.
  - apply H. now left.
  - apply IH. intros y Hy. apply H. now right.
Qed.

(** [X5] Transforming a box keeps the number and the order of its corners
    and yields 3-vectors; in exact arithmetic (rounding is left out),
    placing a box by the composition of a module transform and an element
    transform, as the traversal does, sends each corner to the affine map
    of the element transform followed by the affine map of the module
    transform. *)
Theorem transform_BoxShape_composes (A B : RigidTransformation)
    (box : BoxShape) :
  is_transform A = true -> is_transform B = true -> is_box box = true ->
  length (corners (transform_BoxShape (mult_transforms [A; B]) box))
    = length (corners box)
  /\ is_box (transform_BoxShape (mult_transforms [A; B]) box) = true
  /\ Forall2 coord_eq
       (corners (transform_BoxShape (mult_transforms [A; B]) box))
       (map (fun p => affine A (affine B p)) (corners box)).
Proof.
  intros HA HB Hbox.
  assert (HAB : forallb is_transform [A; B] = true).
  { cbn [forallb]. now rewrite HA, HB. }
  unfold transform_BoxShape, is_box in *. cbn [corners].
  split; [apply length_map|]. split.
  - apply forallb_forall. intros q Hq. apply in_map_iff in Hq.
    destruct Hq as (p & <- & _).
    apply (apply_transform_is_coordinate (mult_transforms [A; B])).
    now apply mult_transforms_is_transform.
  - apply Forall2_map_same. intros p Hp.
    rewrite forallb_forall in Hbox.
    eapply coord_eq_trans.
    + apply (mult_transforms_fold [A; B] p HAB (Hbox p Hp)).
    + apply (fold_apply_affine [A; B] p HAB (Hbox p Hp)).
Qed.

Lemma transform_BoxShape_composes_witness :
  Forall2 coord_eq
    (corners (transform_BoxShape
                (mult_transforms [quarter_turn; translation 1 0 0]) unit_cube))
    (map (fun p => affine quarter_turn (affine (translation 1 0 0) p))
         (corners unit_cube)).
Proof.
  apply (transform_BoxShape_composes quarter_turn (translation 1 0 0) unit_cube);
    reflexivity.
Defined.

(** ** Colour assignment and efficiency extraction *)

Lemma Qtrunc_nonneg (x : Q) : 0 <= x -> Qtrunc x = Qfloor x.
Proof.
  intros H. unfold Qtrunc. apply Qle_bool_iff in H. now rewrite H.
Qed.

Lemma Qfloor_scaled_range (k : Z) (e : Q) :
  (0 <= k)%Z -> 0 <= e -> e <= 1 ->
  (0 <= Qfloor (inject_Z k * e) <= k)%Z.
Proof.
  intros Hk H0 H1.
  assert (K : 0 <= inject_Z k).
  { change 0 with (inject_Z 0). rewrite <- Zle_Qle. exact Hk. }
  split.
  - rewrite <- (Qfloor_Z 0). apply Qfloor_resp_le.
    apply Qmult_le_0_compat; assumption.
  - rewrite <- (Qfloor_Z k) at 2. apply Qfloor_resp_le.
    assert (E : e * inject_Z k <= 1 * inject_Z k)
      by (apply Qmult_le_compat_r; assumption).
    rewrite Qmult_1_l, Qmult_comm in E. exact E.
Qed.

Lemma efficiency_in_unit_range_steps (det_mesh : Trimesh)
    (effs : np.vector) (mod_i n det_i : nat) (e : Q) (s : state) :
  nth_error effs (mod_i * n + det_i) = Some e ->
  0 <= e -> e <= 1 ->
  set_detector_color det_mesh (Some effs) mod_i n det_i false s
    = (inr (set_face_colors det_mesh
              [Qfloor (255 * e); Qfloor (40 * e); Qfloor (40 * e); 50%Z]), s)
  /\ (0 <= Qfloor (255 * e) <= 255)%Z /\ (0 <= Qfloor (40 * e) <= 40)%Z.
Proof.
  intros Hk H0 H1.
  pose proof (Qfloor_scaled_range 255 e ltac:(lia) H0 H1) as R.
  pose proof (Qfloor_scaled_range 40 e ltac:(lia) H0 H1) as G.
  change (inject_Z 255) with 255 in R. change (inject_Z 40) with 40 in G.
  rewrite (set_detector_color_efficiency _ _ _ _ _ e) by exact Hk.
  rewrite !Qtrunc_nonneg by (apply Qmult_le_0_compat; [discriminate | exact H0]).
  rewrite !Z.mod_small by lia.
  repeat split; lia.
Qed.



Lemma sum_bounds (lo hi : Q) (row : np.vector) :
  Forall (fun x => lo <= x /\ x <= hi) row ->
  lo * inject_Z (Z.of_nat (length row)) <= np.sum row
  /\ np.sum row <= hi * inject_Z (Z.of_nat (length row)).
Proof.
  induction 1 as [|x row [Hlo Hhi] _ [IH1 IH2]].
  - change (np.sum []) with 0.
    change (inject_Z (Z.of_nat (length (@nil Q)))) with 0. split; lra.
  - cbn [length np.sum fold_right]. fold (np.sum row).
    rewrite Nat2Z.inj_succ. unfold Z.succ. rewrite inject_Z_plus.
    set (N := inject_Z (Z.of_nat (length row))) in *.
    change (inject_Z 1) with 1. split; lra.
Qed.

Lemma mean_bounds (lo hi : Q) (row : np.vector) :
  row <> [] ->
  Forall (fun x => lo <= x /\ x <= hi) row ->
  lo <= np.mean row /\ np.mean row <= hi.
Proof.
  intros Hne H. destruct (sum_bounds lo hi row H) as [S1 S2].
  assert (N : 0 < inject_Z (Z.of_nat (length row))).
  { change 0 with (inject_Z 0). rewrite <- Zlt_Qlt.
    destruct row; [contradiction|]. cbn [length]. lia. }
  unfold np.mean. split.
  - apply Qle_shift_div_l; assumption.
  - apply Qle_shift_div_r; assumption.
Qed.

(** [X8] Element colouring by efficiency ends normally, keeping the mesh
    geometry and the state, exactly when the index
    [mod_i * num_det_in_module + det_i] is below the length of the weight
    vector; at or beyond it the call raises [IndexError] and changes
    nothing. *)
Theorem efficiency_index_bounds (det_mesh : Trimesh) (effs : np.vector)
    (mod_i n det_i : nat) (s : state) :
  ((mod_i * n + det_i < length effs)%nat ->
   exists m', set_detector_color det_mesh (Some effs) mod_i n det_i false s
              = (inr m', s)
              /\ geometry m' = geometry det_mesh)
  /\ ((length effs <= mod_i * n + det_i)%nat ->
      set_detector_color det_mesh (Some effs) mod_i n det_i false s
      = (inl IndexError, s)).
Proof.
  split; intros H.
  - destruct (nth_error effs (mod_i * n + det_i)) as [e|] eqn:E.
    + rewrite (set_detector_color_efficiency _ _ _ _ _ e) by exact E.
      eexists. split; reflexivity.
    + apply nth_error_None in E. lia.
  - apply nth_error_None in H.
    unfold set_detector_color, bind, index. rewrite H. reflexivity.
Qed.

Lemma efficiency_index_bounds_witness :
  set_detector_color (create_box_from_vertices []) (Some [1; 1]) 1 2 0 false
    (initial_state raw_words)
  = (inl IndexError, initial_state raw_words).
Proof.
  apply (efficiency_index_bounds (create_box_from_vertices []) [1; 1] 1 2 0
           (initial_state raw_words)).
  cbn. lia.
Defined.





Lemma f_color_of_scale_comp (e e' : Q) :
  e == e' ->
  f_color_of (scale_color crystal_color e)
  = f_color_of (scale_color crystal_color e').
Proof.
  intros H. unfold f_color_of, scale_color, crystal_color, channel.
  cbn [map nth astype_uint8].
  rewrite (Qtrunc_comp (inject_Z 255 * e) (inject_Z 255 * e')) by now rewrite H.
  rewrite (Qtrunc_comp (inject_Z 40 * e) (inject_Z 40 * e')) by now rewrite H.
  reflexivity.
Qed.

(** ** Traversal in per-element mode *)

Lemma Forall_flat_map_in {A B} (P : B -> Prop) (f : A -> list B) (l : list A) :
  Forall P (flat_map f l) <-> forall x, In x l -> Forall P (f x).
Proof.
  rewrite Forall_forall. split.
  - intros H x Hx. apply Forall_forall. intros y Hy. apply H.
    apply in_flat_map. now exists x.
  - intros H y Hy. apply in_flat_map in Hy. destruct Hy as (x & Hx & Hy).
    specialize (H x Hx). rewrite Forall_forall in H. now apply H.
Qed.

Lemma emits_silent {A} (m : M A) :
  (forall s, shapes (snd (m s)) = shapes s) -> emits m [].
Proof.
  intros H s r s' E. exists []. pose proof (H s) as Hs. rewrite E in Hs.
  cbn [snd] in Hs. rewrite Hs, app_nil_r. split; [reflexivity|].
  destruct r; cbn [emitted]; [exists []|]; reflexivity.
Qed.

Lemma flat_map_nth_all {A B} (f : A -> list B) (d : A) (l : list A) :
  flat_map (fun i => f (nth i l d)) (range (length l)) = flat_map f l.
Proof.
  unfold range. rewrite !flat_map_concat_map.
  rewrite <- (map_map (fun i => nth i l d) f), map_nth_range. reflexivity.
Qed.

Lemma emits_bind_ret {A B} (a : A) (k : A -> M B) (e : list Geometry) :
  emits (k a) e -> emits (bind (ret a) k) e.
Proof.
  intros H s r s' E. exact (H s r s' E).
Qed.

Lemma emits_index {A} (l : list A) (i : nat) : emits (index l i) [].
Proof.
  apply emits_silent. intros s. unfold index.
  destruct (nth_error l i); reflexivity.
Qed.

(** Colouring an element mesh keeps its geometry and touches no solid. *)
Lemma set_detector_color_keeps_geometry (m : Trimesh) effs mod_i n det_i rc s :
  shapes (snd (set_detector_color m effs mod_i n det_i rc s)) = shapes s
  /\ match fst (set_detector_color m effs mod_i n det_i rc s) with
     | inr m' => geometry m' = geometry m
     | inl _ => True
     end.
Proof.
  destruct rc.
  - rewrite set_detector_color_random. split; reflexivity.
  - unfold set_detector_color, bind. destruct effs as [effs|].
    + unfold index. destruct (nth_error effs (mod_i * n + det_i));
        split; try reflexivity; exact I.
    + split; reflexivity.
Qed.

Section PerElementEmits.

Variable args : Args.
Variable detector_efficiencies : option np.vector.
Hypothesis Hmode : modules_only args = false.

Lemma element_body_emits mod_i mod_transform rep_volume n det_i t :
  nth_error (ReplicatedBoxSolidVolume.transforms rep_volume) det_i = Some t ->
  emits (element_body args detector_efficiencies mod_i mod_transform
           rep_volume n det_i)
        [Mesh (element_corners mod_transform rep_volume t) box_faces].
Proof.
  intros Ht s r s' E.
  unfold element_body, bind, index in E. rewrite Ht, Hmode in E.
  cbn [negb ret] in E.
  match type of E with
  | context [set_detector_color ?m ?e ?i ?k ?d ?rc ?st] =>
      pose proof (set_detector_color_keeps_geometry m e i k d rc st) as [Hsh Hg];
      destruct (set_detector_color m e i k d rc st) as [[e0|m'] s3]
  end; cbn [fst snd] in *; injection E as <- <-.
  - exists []. rewrite Hsh, app_nil_r. split; [reflexivity|].
    eexists. reflexivity.
  - eexists. cbn [shapes]. rewrite Hsh, map_app. cbn [map].
    rewrite Hg. split; reflexivity.
Qed.

Lemma group_body_emits mod_i mod_transform rep_volume :
  emits (group_body args detector_efficiencies mod_i mod_transform rep_volume)
        (map (fun t => Mesh (element_corners mod_transform rep_volume t)
                            box_faces)
             (ReplicatedBoxSolidVolume.transforms rep_volume)).
Proof.
  intros s r s' E. unfold group_body in E.
  unfold bind at 1, assign_num_det_in_module in E.
  unfold bind at 1, read_num_det_in_module in E.
  cbn [num_det_in_module] in E.
  rewrite <- (flat_map_nth_range _ {| matrix := [] |}).
  assert (T : emits
                (for_each
                   (range (length (ReplicatedBoxSolidVolume.transforms rep_volume)))
                   (element_body args detector_efficiencies mod_i mod_transform
                      rep_volume
                      (length (ReplicatedBoxSolidVolume.transforms rep_volume))))
                (flat_map
                   (fun i =>
                      [Mesh (element_corners mod_transform rep_volume
                               (nth i (ReplicatedBoxSolidVolume.transforms rep_volume)
                                    {| matrix := [] |}))
                            box_faces])
                   (range (length (ReplicatedBoxSolidVolume.transforms rep_volume))))).
  { apply emits_for_each. intros det_i Hin. apply in_seq in Hin.
    apply element_body_emits. apply nth_error_nth'. lia. }
  exact (T _ _ _ E).
Qed.

Lemma module_body_emits_boxes rep_module det_el mod_i mod_transform :
  nth_error (ReplicatedDetectorModule.transforms rep_module) mod_i
    = Some mod_transform ->
  emits (module_body args detector_efficiencies rep_module det_el mod_i)
        (module_boxes det_el mod_transform).
Proof.
  intros Hnth. unfold module_body.
  change (module_boxes det_el mod_transform)
    with ([] ++ module_boxes det_el mod_transform).
  apply emits_bind.
  { apply emits_silent. reflexivity. }
  intros _. unfold index. rewrite Hnth.
  apply emits_bind_ret.
  rewrite <- (app_nil_r (module_boxes det_el mod_transform)).
  apply emits_bind.
  - unfold module_boxes. apply emits_for_each. intros rep_volume _.
    apply group_body_emits.
  - intros _. rewrite Hmode. apply emits_ret.
Qed.

Lemma rep_module_body_emits_boxes rep_module :
  emits (rep_module_body args detector_efficiencies rep_module)
        (flat_map (module_boxes
                     (detecting_elements
                        (ReplicatedDetectorModule.object rep_module)))
                  (ReplicatedDetectorModule.transforms rep_module)).
Proof.
  unfold rep_module_body.
  rewrite <- (flat_map_nth_all _ {| matrix := [] |}).
  apply emits_for_each. intros mod_i Hin. apply in_seq in Hin.
  apply module_body_emits_boxes. apply nth_error_nth'. lia.
Qed.

End PerElementEmits.

Lemma extract_detector_eff_outcome (flag : bool) (header : Header) (s : state) :
  extract_detector_eff flag header s
    = (inl (SystemExit missing_efficiencies_message), s)
  \/ exists effs, extract_detector_eff flag header s = (inr effs, s).
Proof.
  unfold extract_detector_eff.
  destruct (det_el_efficiencies (detection_efficiencies (scanner header))).
  - right. eexists. reflexivity.
  - destruct flag; [left | right; eexists]; reflexivity.
Qed.

(** What a run emits when each replicated module emits [per_module]. *)
Lemma main_emits (args : Args) (header : Header) (g : nat -> Z)
    (per_module : ReplicatedDetectorModule.t -> list Geometry) r s' :
  (forall effs rep_module,
      emits (rep_module_body args effs rep_module) (per_module rep_module)) ->
  main args header (initial_state g) = (r, s') ->
  emitted r (map geometry (shapes s'))
    (flat_map per_module (replicated_modules (scanner_geometry (scanner header)))
     ++ fov_geometry args).
Proof.
  intros Hbody E. unfold main in E. unfold bind at 1 in E.
  destruct (extract_detector_eff_outcome (show_det_eff args) header
              (initial_state g)) as [Ex | [effs Ex]]; rewrite Ex in E.
  - injection E as <- <-. cbn. eexists. reflexivity.
  - unfold bind at 1, assign_shapes in E.
    assert (T : emits
                  (for_each (replicated_modules (scanner_geometry (scanner header)))
                     (rep_module_body args effs) ;;
                   match fov args with
                   | Some (radius, height) =>
                       shapes_append {| geometry := Cylinder radius height;
                                        face_colors := None |}
                   | None => ret tt
                   end)
                  (flat_map per_module
                     (replicated_modules (scanner_geometry (scanner header)))
                   ++ fov_geometry args)).
    { apply emits_bind.
      - apply emits_for_each. intros rep_module _. apply Hbody.
      - intros _. unfold fov_geometry. destruct (fov args) as [[radius height]|].
        + apply (emits_shapes_append
                   {| geometry := Cylinder radius height; face_colors := None |}).
        + apply emits_ret. }
    destruct (T _ _ _ E) as (done & Hs & Hr). cbn [shapes map app] in Hs.
    now rewrite Hs.
Qed.

Lemma length_module_boxes det_el mod_transform :
  length (module_boxes det_el mod_transform)
  = list_sum (map (fun rep_volume =>
                     length (ReplicatedBoxSolidVolume.transforms rep_volume))
                  det_el).
Proof.
  unfold module_boxes. induction det_el as [|rv det_el IH].
  - reflexivity.
  - cbn [flat_map map list_sum fold_right].
    rewrite length_app, length_map, IH. reflexivity.
Qed.

Lemma length_flat_map_const {A B} (f : A -> list B) (n : nat) (l : list A) :
  (forall x, length (f x) = n) -> length (flat_map f l) = (length l * n)%nat.
Proof.
  intros H. induction l as [|x l IH]; [reflexivity|].
  cbn [flat_map length]. rewrite length_app, H, IH. lia.
Qed.

Lemma length_expected_boxes (header : Header) :
  length (expected_boxes header) = element_instances header.
Proof.
  unfold expected_boxes, element_instances.
  induction (replicated_modules (scanner_geometry (scanner header)))
    as [|rep_module mods IH].
  - reflexivity.
  - cbn [flat_map map list_sum fold_right]. rewrite length_app, IH.
    f_equal. apply length_flat_map_const. intros mt.
    apply length_module_boxes.
Qed.

(** [X11] On a header of the declared shapes, a per-element run that ends
    normally has made exactly one call of [create_box_from_vertices] per
    element instance (placements times the instances of all groups, summed
    over the module types), in traversal order, each on the corners of its
    element placed by the module and element transforms, and has collected
    the resulting solids in that order, followed by the cylinder when a
    field of view is asked for; a run that raises has collected an initial
    part of that list. *)
Theorem per_element_mode_one_box_per_element (args : Args) (header : Header)
    (g : nat -> Z) :
  well_formed header = true ->
  modules_only args = false ->
  length (expected_boxes header) = element_instances header
  /\ (forall out,
        run args header g = (inr tt, out) ->
        map geometry out = expected_boxes header ++ fov_geometry args
        /\ (fov args = None -> length out = element_instances header))
  /\ (forall e out,
        run args header g = (inl e, out) ->
        exists rest,
          expected_boxes header ++ fov_geometry args
          = map geometry out ++ rest).
Proof.
  intros _ Hmode. split; [apply length_expected_boxes|].
  assert (B : forall r s',
             main args header (initial_state g) = (r, s') ->
             emitted r (map geometry (shapes s'))
               (expected_boxes header ++ fov_geometry args)).
  { intros r s' E.
    apply (main_emits args header g
             (fun rep_module =>
                flat_map (module_boxes
                            (detecting_elements
                               (ReplicatedDetectorModule.object rep_module)))
                         (ReplicatedDetectorModule.transforms rep_module))
             r s'); [|exact E].
    intros effs rep_module. now apply rep_module_body_emits_boxes. }
  split.
  - intros out E. unfold run in E.
    destruct (main args header (initial_state g)) as [r s'] eqn:Em.
    injection E as -> <-. pose proof (B _ _ eq_refl) as Hr.
    cbn [emitted] in Hr. split; [exact Hr|].
    intros Hfov. rewrite <- (length_map geometry), Hr.
    unfold fov_geometry. rewrite Hfov, app_nil_r.
    apply length_expected_boxes.
  - intros e out E. unfold run in E.
    destruct (main args header (initial_state g)) as [r s'] eqn:Em.
    injection E as -> <-. exact (B _ _ eq_refl).
Qed.

Lemma per_element_mode_one_box_per_element_witness :
  modules_only (args_of false false false) = false
  /\ map geometry
       (snd (run (args_of false false false) two_cube_header raw_words))
     = expected_boxes two_cube_header.
Proof.
  split; [reflexivity|].
  destruct (per_element_mode_one_box_per_element (args_of false false false)
              two_cube_header raw_words eq_refl eq_refl) as (_ & H & _).
  destruct (H (snd (run (args_of false false false) two_cube_header raw_words))
              eq_refl) as [Hg _].
  exact Hg.
Defined.






(** ** Per-element mode: total runs and their colours *)

Lemma paint_all_app rc effs g pos (j1 j2 : list job) :
  paint_all rc effs g pos (j1 ++ j2)
  = paint_all rc effs g pos j1
    ++ paint_all rc effs g (pos + step rc * length j1)%nat j2.
Proof.
  revert pos. induction j1 as [|j j1 IH]; intros pos.
  - cbn [app paint_all length]. now rewrite Nat.mul_0_r, Nat.add_0_r.
  - cbn [app paint_all length]. rewrite IH. do 3 f_equal. lia.
Qed.

Lemma paints_ret {A} rc effs (a : A) : paints rc effs (ret a) [].
Proof.
  intros s. exists a, s. cbn [paint_all length].
  rewrite app_nil_r, Nat.mul_0_r, Nat.add_0_r. repeat split; reflexivity.
Qed.

Lemma paints_bind {A B} rc effs (m : M A) (k : A -> M B) (j1 j2 : list job) :
  paints rc effs m j1 -> (forall a, paints rc effs (k a) j2) ->
  paints rc effs (bind m k) (j1 ++ j2).
Proof.
  intros Hm Hk s. destruct (Hm s) as (a & s1 & E1 & S1 & G1 & P1).
  destruct (Hk a s1) as (b & s2 & E2 & S2 & G2 & P2).
  exists b, s2. unfold bind. rewrite E1, E2. split; [reflexivity|].
  rewrite S2, G2, P2, S1, G1, P1, paint_all_app, length_app, app_assoc.
  rewrite Nat.mul_add_distr_l, Nat.add_assoc.
  repeat split; reflexivity.
Qed.

Lemma paints_bind_ret {A B} rc effs (a : A) (k : A -> M B) (jobs : list job) :
  paints rc effs (k a) jobs -> paints rc effs (bind (ret a) k) jobs.
Proof.
  intros H s. exact (H s).
Qed.

Lemma paints_for_each {A} rc effs (xs : list A) (body : A -> M unit)
    (f : A -> list job) :
  (forall x, In x xs -> paints rc effs (body x) (f x)) ->
  paints rc effs (for_each xs body) (flat_map f xs).
Proof.
  induction xs as [|x xs IH]; intros H.
  - apply paints_ret.
  - cbn [for_each flat_map]. apply paints_bind.
    + apply H. now left.
    + intros _. apply IH. intros y Hy. apply H. now right.
Qed.

Lemma map_flat_map_single {A B} (f : A -> B) (l : list A) :
  map f l = flat_map (fun x => [f x]) l.
Proof.
  induction l as [|x l IH]; [reflexivity|]. cbn [map flat_map app].
  now rewrite IH.
Qed.

Section PerElementPaints.

Variable args : Args.
Variable effs : option np.vector.
Hypothesis Hmode : modules_only args = false.

Lemma element_body_paints mod_i mod_transform rep_volume det_i :
  (det_i < length (ReplicatedBoxSolidVolume.transforms rep_volume))%nat ->
  index_ok (random_color args) effs
    (Mesh (element_corners mod_transform rep_volume
             (nth det_i (ReplicatedBoxSolidVolume.transforms rep_volume)
                  no_transform)) box_faces,
     (mod_i * length (ReplicatedBoxSolidVolume.transforms rep_volume)
      + det_i)%nat) ->
  paints (random_color args) effs
    (element_body args effs mod_i mod_transform rep_volume
       (length (ReplicatedBoxSolidVolume.transforms rep_volume)) det_i)
    [(Mesh (element_corners mod_transform rep_volume
              (nth det_i (ReplicatedBoxSolidVolume.transforms rep_volume)
                   no_transform)) box_faces,
      (mod_i * length (ReplicatedBoxSolidVolume.transforms rep_volume)
       + det_i)%nat)].
Proof.
  intros Hlt Hok s.
  pose proof (nth_error_nth' (ReplicatedBoxSolidVolume.transforms rep_volume)
                no_transform Hlt) as Ht.
  unfold element_body, bind, index. rewrite Ht, Hmode. cbn [negb ret].
  unfold paint_all, paint, job_color, step. cbn [fst snd length].
  destruct (random_color args) eqn:Hrc.
  - rewrite set_detector_color_random. unfold shapes_append, advance, draw.
    cbn [shapes rng rng_pos]. do 2 eexists. split; [reflexivity|].
    rewrite Nat.add_0_r. repeat split; first [reflexivity | cbn; lia].
  - destruct Hok as [Hok | Hok]; [discriminate Hok|].
    destruct effs as [e|].
    + cbn [snd] in Hok.
      destruct (nth_error e
                  (mod_i * length (ReplicatedBoxSolidVolume.transforms rep_volume)
                   + det_i)) as [x|] eqn:Ex.
      2:{ apply nth_error_None in Ex. lia. }
      unfold set_detector_color, bind, index. rewrite Ex.
      rewrite (nth_error_nth _ _ 0 Ex).
      unfold ret, shapes_append. cbn [shapes rng rng_pos].
      do 2 eexists. split; [reflexivity|].
      repeat split; first [reflexivity | cbn; lia].
    + unfold set_detector_color, bind, ret, shapes_append.
      cbn [shapes rng rng_pos]. do 2 eexists. split; [reflexivity|].
      repeat split; first [reflexivity | cbn; lia].
Qed.

Lemma group_body_paints mod_i mod_transform rep_volume :
  Forall (index_ok (random_color args) effs)
         (group_jobs mod_i mod_transform rep_volume) ->
  paints (random_color args) effs
    (group_body args effs mod_i mod_transform rep_volume)
    (group_jobs mod_i mod_transform rep_volume).
Proof.
  intros Hok s. unfold group_body.
  unfold bind at 1, assign_num_det_in_module.
  unfold bind at 1, read_num_det_in_module. cbn [num_det_in_module].
  unfold group_jobs in *. rewrite map_flat_map_single.
  match goal with
  | |- context [for_each ?xs ?body ?st] =>
      assert (T : paints (random_color args) effs (for_each xs body)
                    (flat_map
                       (fun det_i =>
                          [(Mesh (element_corners mod_transform rep_volume
                                    (nth det_i
                                       (ReplicatedBoxSolidVolume.transforms rep_volume)
                                       no_transform)) box_faces,
                            (mod_i
                             * length (ReplicatedBoxSolidVolume.transforms rep_volume)
                             + det_i)%nat)]) xs));
      [|exact (T st)]
  end.
  apply paints_for_each. intros det_i Hin.
  rewrite Forall_forall in Hok.
  apply element_body_paints.
  - apply in_seq in Hin. lia.
  - apply Hok. apply in_map_iff. exists det_i. split; [reflexivity | exact Hin].
Qed.

Lemma module_body_paints rep_module det_el mod_i :
  (mod_i < length (ReplicatedDetectorModule.transforms rep_module))%nat ->
  Forall (index_ok (random_color args) effs)
         (module_jobs det_el (ReplicatedDetectorModule.transforms rep_module)
            mod_i) ->
  paints (random_color args) effs
    (module_body args effs rep_module det_el mod_i)
    (module_jobs det_el (ReplicatedDetectorModule.transforms rep_module) mod_i).
Proof.
  intros Hlt Hok. unfold module_body.
  pose proof (nth_error_nth' (ReplicatedDetectorModule.transforms rep_module)
                no_transform Hlt) as Hnth.
  set (jobs := module_jobs det_el
                 (ReplicatedDetectorModule.transforms rep_module) mod_i) in *.
  change jobs with ([] ++ jobs). apply paints_bind.
  { intros s. do 2 eexists. unfold assign_vertices. split; [reflexivity|].
    cbn [shapes rng rng_pos paint_all length].
    rewrite app_nil_r, Nat.mul_0_r, Nat.add_0_r. repeat split; reflexivity. }
  intros _. unfold index. rewrite Hnth. apply paints_bind_ret.
  rewrite <- (app_nil_r jobs). apply paints_bind.
  - unfold jobs, module_jobs in *. apply paints_for_each.
    intros rep_volume Hin. apply group_body_paints.
    rewrite Forall_flat_map_in in Hok. now apply Hok.
  - intros _. rewrite Hmode. apply paints_ret.
Qed.

Lemma rep_module_body_paints rep_module :
  Forall (index_ok (random_color args) effs) (rep_module_jobs rep_module) ->
  paints (random_color args) effs
    (rep_module_body args effs rep_module) (rep_module_jobs rep_module).
Proof.
  intros Hok. unfold rep_module_body, rep_module_jobs in *.
  apply paints_for_each. intros mod_i Hin.
  apply module_body_paints.
  - apply in_seq in Hin. lia.
  - rewrite Forall_flat_map_in in Hok. now apply Hok.
Qed.

End PerElementPaints.

(** A per-element run whose weights can all be looked up ends normally with
    the painted jobs of the scanner, then the cylinder. *)
Lemma per_element_run (args : Args) (header : Header) (g : nat -> Z) :
  modules_only args = false ->
  (show_det_eff args = true ->
   det_el_efficiencies (detection_efficiencies (scanner header)) <> None) ->
  Forall (index_ok (random_color args)
            (weights_of (show_det_eff args) header))
         (expected_jobs header) ->
  run args header g
  = (inr tt,
     paint_all (random_color args) (weights_of (show_det_eff args) header)
       g 0 (expected_jobs header)
     ++ fov_meshes args).
Proof.
  intros Hmode Htab Hok. unfold run, main. unfold bind at 1.
  assert (Ex : extract_detector_eff (show_det_eff args) header (initial_state g)
               = (inr (weights_of (show_det_eff args) header), initial_state g)).
  { unfold extract_detector_eff, weights_of.
    destruct (det_el_efficiencies (detection_efficiencies (scanner header))).
    - reflexivity.
    - destruct (show_det_eff args); [|reflexivity].
      exfalso. now apply Htab. }
  rewrite Ex. unfold bind at 1, assign_shapes. unfold bind at 1.
  set (effs := weights_of (show_det_eff args) header) in *.
  destruct (paints_for_each (random_color args) effs
              (replicated_modules (scanner_geometry (scanner header)))
              (rep_module_body args effs) rep_module_jobs
              ltac:(intros rm Hin; apply rep_module_body_paints;
                    [exact Hmode
                    | unfold expected_jobs in Hok;
                      rewrite Forall_flat_map_in in Hok; now apply Hok])
              {| shapes := []; vertices := vertices (initial_state g);
                 num_det_in_module := num_det_in_module (initial_state g);
                 rng := rng (initial_state g);
                 rng_pos := rng_pos (initial_state g) |})
    as ([] & s1 & E1 & S1 & _).
  rewrite E1. cbn [shapes rng rng_pos initial_state app] in S1.
  unfold fov_meshes. destruct (fov args) as [[radius height]|].
  - unfold shapes_append. cbn [shapes]. now rewrite S1.
  - unfold ret. now rewrite S1, app_nil_r.
Qed.

Lemma group_jobs_boxes mod_i mod_transform rep_volume :
  map fst (group_jobs mod_i mod_transform rep_volume)
  = map (fun t => Mesh (element_corners mod_transform rep_volume t) box_faces)
        (ReplicatedBoxSolidVolume.transforms rep_volume).
Proof.
  unfold group_jobs, range. rewrite map_map. cbn [fst].
  rewrite <- (map_map (fun i => nth i _ no_transform)
                (fun t => Mesh (element_corners mod_transform rep_volume t)
                               box_faces)).
  now rewrite map_nth_range.
Qed.

Lemma map_flat_map {A B C} (h : B -> C) (f : A -> list B) (l : list A) :
  map h (flat_map f l) = flat_map (fun x => map h (f x)) l.
Proof.
  induction l as [|x l IH]; [reflexivity|].
  cbn [flat_map]. now rewrite map_app, IH.
Qed.

Lemma flat_map_ext_in {A B} (f g : A -> list B) (l : list A) :
  (forall x, In x l -> f x = g x) -> flat_map f l = flat_map g l.
Proof.
  induction l as [|x l IH]; intros H; [reflexivity|].
  cbn [flat_map]. rewrite H by now left. rewrite IH; [reflexivity|].
  intros y Hy. apply H. now right.
Qed.

Lemma expected_jobs_boxes (header : Header) :
  map fst (expected_jobs header) = expected_boxes header.
Proof.
  unfold expected_jobs, expected_boxes. rewrite map_flat_map.
  apply flat_map_ext_in. intros rep_module _.
  unfold rep_module_jobs. rewrite map_flat_map.
  rewrite <- (flat_map_nth_all
                (module_boxes
                   (detecting_elements (ReplicatedDetectorModule.object rep_module)))
                no_transform).
  apply flat_map_ext_in. intros mod_i _.
  unfold module_jobs, module_boxes. rewrite map_flat_map.
  apply flat_map_ext_in. intros rep_volume _. apply group_jobs_boxes.
Qed.

Lemma length_expected_jobs (header : Header) :
  length (expected_jobs header) = element_instances header.
Proof.
  rewrite <- length_expected_boxes, <- expected_jobs_boxes.
  symmetry. apply length_map.
Qed.

Lemma paint_all_geometry rc effs g pos (jobs : list job) :
  map geometry (paint_all rc effs g pos jobs) = map fst jobs.
Proof.
  revert pos. induction jobs as [|j jobs IH]; intros pos; [reflexivity|].
  cbn [paint_all map paint geometry]. now rewrite IH.
Qed.

Lemma paint_all_fixed effs g pos (jobs : list job) :
  paint_all false effs g pos jobs = map (paint false effs g pos) jobs.
Proof.
  revert pos. induction jobs as [|j jobs IH]; intros pos; [reflexivity|].
  cbn [paint_all map step]. rewrite Nat.add_0_r, IH. reflexivity.
Qed.

(** [X13] With no efficiency table, the efficiency flag off and random
    colouring off, a per-element run never raises, whatever the scanner
    geometry of the declared shapes: it yields one box per element instance in traversal order,
    every one in the base colour (255, 40, 40, 50), then the uncoloured
    cylinder when a field of view is asked for. *)
Theorem default_mode_run_is_total (args : Args) (header : Header)
    (g : nat -> Z) :
  well_formed header = true ->
  modules_only args = false -> show_det_eff args = false ->
  random_color args = false ->
  det_el_efficiencies (detection_efficiencies (scanner header)) = None ->
  run args header g
  = (inr tt, map base_colored (expected_boxes header) ++ fov_meshes args).
Proof.
  intros _ Hmode Hshow Hrand Htab.
  rewrite (per_element_run args header g Hmode).
  - rewrite Hrand, Hshow. unfold weights_of. rewrite Htab.
    rewrite paint_all_fixed, <- expected_jobs_boxes, map_map. reflexivity.
  - rewrite Hshow. discriminate.
  - rewrite Hrand, Hshow. unfold weights_of. rewrite Htab.
    apply Forall_forall. intros j _. right. exact I.
Qed.

Lemma default_mode_run_is_total_witness :
  run (args_of false false false) two_cube_header raw_words
  = (inr tt, map base_colored (expected_boxes two_cube_header)).
Proof.
  rewrite (default_mode_run_is_total (args_of false false false)
             two_cube_header raw_words); reflexivity.
Defined.

Lemma paint_all_random_colors effs g (jobs : list job) :
  forall pos,
    map face_colors (paint_all true effs g pos jobs)
    = map (fun k =>
             Some [(g (pos + 3 * k)%nat mod 255)%Z;
                   (g (pos + 3 * k + 1)%nat mod 255)%Z;
                   (g (pos + 3 * k + 2)%nat mod 255)%Z; 50%Z])
          (seq 0 (length jobs)).
Proof.
  induction jobs as [|j jobs IH]; intros pos; [reflexivity|].
  cbn [paint_all map length seq paint face_colors job_color step].
  rewrite IH, <- seq_shift, map_map. f_equal.
  - rewrite Nat.mul_0_r, !Nat.add_0_r. reflexivity.
  - apply map_ext. intros k.
    replace (pos + 3 + 3 * k)%nat with (pos + 3 * S k)%nat by lia.
    reflexivity.
Qed.

Lemma map_add_seq (a n : nat) :
  map (fun j => (a + j)%nat) (seq 0 n) = seq a n.
Proof.
  revert a. induction n as [|n IH]; intros a; [reflexivity|].
  cbn [seq map]. rewrite Nat.add_0_r. f_equal.
  rewrite <- seq_shift, map_map.
  rewrite <- (IH (S a)). apply map_ext. intros j. lia.
Qed.

Lemma seq_blocks (n m : nat) :
  flat_map (fun i => map (fun j => (i * n + j)%nat) (seq 0 n)) (seq 0 m)
  = seq 0 (m * n).
Proof.
  induction m as [|m IH]; [reflexivity|].
  rewrite seq_S, flat_map_app, IH. cbn [flat_map Nat.add].
  rewrite app_nil_r, map_add_seq.
  replace (S m * n)%nat with (m * n + n)%nat by lia.
  now rewrite seq_app.
Qed.

Lemma single_group_job_indices (header : Header)
    (rep_module : ReplicatedDetectorModule.t)
    (rep_volume : ReplicatedBoxSolidVolume.t) :
  replicated_modules (scanner_geometry (scanner header)) = [rep_module] ->
  detecting_elements (ReplicatedDetectorModule.object rep_module)
    = [rep_volume] ->
  map snd (expected_jobs header)
  = seq 0 (length (ReplicatedDetectorModule.transforms rep_module)
           * length (ReplicatedBoxSolidVolume.transforms rep_volume)).
Proof.
  intros Hm Hg. unfold expected_jobs. rewrite Hm. cbn [flat_map].
  rewrite app_nil_r. unfold rep_module_jobs. rewrite Hg, map_flat_map.
  rewrite <- seq_blocks. apply flat_map_ext_in. intros mod_i _.
  unfold module_jobs. cbn [flat_map]. rewrite app_nil_r.
  unfold group_jobs, range. rewrite map_map. reflexivity.
Qed.

(** ** Runs without random colouring do not depend on the generator *)

Lemma agnostic_ret {A} (a : A) : agnostic (ret a).
Proof. intros g s. reflexivity. Qed.

Lemma agnostic_raise {A} (e : exn) : agnostic (@raise A e).
Proof. intros g s. reflexivity. Qed.

Lemma agnostic_bind {A B} (m : M A) (k : A -> M B) :
  agnostic m -> (forall a, agnostic (k a)) -> agnostic (bind m k).
Proof.
  intros Hm Hk g s. unfold bind. rewrite Hm.
  destruct (m s) as [[e|a] s1]; cbn [fst snd]; [reflexivity|].
  apply Hk.
Qed.

Lemma agnostic_for_each {A} (xs : list A) (body : A -> M unit) :
  (forall x, agnostic (body x)) -> agnostic (for_each xs body).
Proof.
  intros H. induction xs as [|x xs IH].
  - apply agnostic_ret.
  - cbn [for_each]. apply agnostic_bind; [apply H | intros _; exact IH].
Qed.

Lemma agnostic_index {A} (l : list A) (i : nat) : agnostic (index l i).
Proof.
  unfold index. destruct (nth_error l i);
    [apply agnostic_ret | apply agnostic_raise].
Qed.

Lemma agnostic_set_detector_color m effs mod_i n det_i :
  agnostic (set_detector_color m effs mod_i n det_i false).
Proof.
  unfold set_detector_color. apply agnostic_bind.
  - destruct effs as [e|]; [|apply agnostic_ret].
    apply agnostic_bind; [apply agnostic_index|].
    intros x. apply agnostic_ret.
  - intros col. apply agnostic_ret.
Qed.

Lemma agnostic_set_module_color m effs mod_i n det_el :
  agnostic (set_module_color m effs mod_i n det_el false).
Proof.
  unfold set_module_color. apply agnostic_bind.
  - destruct effs as [e|]; [|apply agnostic_ret].
    apply agnostic_bind; [|intros x; apply agnostic_ret].
    unfold reshape_row.
    destruct (length det_el * n =? 0)%nat; [apply agnostic_raise|].
    destruct (negb (length e mod (length det_el * n) =? 0)%nat);
      [apply agnostic_raise|].
    destruct (mod_i <? length e / (length det_el * n))%nat;
      [apply agnostic_ret | apply agnostic_raise].
  - intros col. apply agnostic_ret.
Qed.

Lemma agnostic_read_num : agnostic read_num_det_in_module.
Proof.
  intros g s. unfold read_num_det_in_module. cbn [with_rng num_det_in_module].
  destruct (num_det_in_module s); reflexivity.
Qed.

Lemma agnostic_main (args : Args) (header : Header) :
  random_color args = false -> agnostic (main args header).
Proof.
  intros Hrand. unfold main. apply agnostic_bind.
  { unfold extract_detector_eff.
    destruct (det_el_efficiencies (detection_efficiencies (scanner header)));
      [apply agnostic_ret|].
    destruct (show_det_eff args); [apply agnostic_raise | apply agnostic_ret]. }
  intros effs. apply agnostic_bind; [intros g s; reflexivity|]. intros _.
  apply agnostic_bind.
  2:{ intros _. destruct (fov args) as [[radius height]|];
        [intros g s; reflexivity | apply agnostic_ret]. }
  apply agnostic_for_each. intros rep_module. unfold rep_module_body.
  apply agnostic_for_each. intros mod_i. unfold module_body.
  apply agnostic_bind; [intros g s; reflexivity|]. intros _.
  apply agnostic_bind; [apply agnostic_index|]. intros mod_transform.
  apply agnostic_bind.
  - apply agnostic_for_each. intros rep_volume. unfold group_body.
    apply agnostic_bind; [intros g s; reflexivity|]. intros _.
    apply agnostic_bind; [apply agnostic_read_num|]. intros n.
    apply agnostic_for_each. intros det_i. unfold element_body.
    apply agnostic_bind; [apply agnostic_index|]. intros transform.
    destruct (negb (modules_only args)); [|intros g s; reflexivity].
    apply agnostic_bind.
    + rewrite Hrand. apply agnostic_set_detector_color.
    + intros m'. intros g s. reflexivity.
  - intros _. destruct (modules_only args); [|apply agnostic_ret].
    apply agnostic_bind; [intros g s; reflexivity|]. intros vs.
    apply agnostic_bind; [apply agnostic_read_num|]. intros n.
    apply agnostic_bind.
    + rewrite Hrand. apply agnostic_set_module_color.
    + intros m'. intros g s. reflexivity.
Qed.

(** [X16] Without random colouring a run never consults the random
    generator: in either mode, for every header, the outcome (normal end or
    exception) and the solids collected are the same whatever generator the
    run starts with. *)
Theorem run_without_random_color_ignores_generator (args : Args)
    (header : Header) (g g' : nat -> Z) :
  random_color args = false ->
  run args header g = run args header g'.
Proof.
  intros Hrand. unfold run.
  change (initial_state g') with (with_rng g' (initial_state g)).
  rewrite (agnostic_main args header Hrand g' (initial_state g)).
  destruct (main args header (initial_state g)) as [r s]. reflexivity.
Qed.

Lemma run_without_random_color_ignores_generator_witness :
  run (args_of true true false) two_group_header raw_words
  = run (args_of true true false) two_group_header (fun _ => 0%Z).
Proof.
  apply (run_without_random_color_ignores_generator (args_of true true false)
           two_group_header raw_words (fun _ => 0%Z)).
  reflexivity.
Defined.

(** ** Further properties of colours and placement *)

Lemma ones_weight (table : np.ndarray) (k : nat) :
  (0 < snd (np.shape table))%nat -> (k < length table)%nat ->
  nth k (np.mean_axis1 (np.ones (np.shape table))) 0 == 1.
Proof.
  intros Hbins Hk. unfold np.mean_axis1, np.ones, np.shape in *.
  cbn [fst snd] in *.
  assert (Hin : In (nth k (map np.mean
                             (repeat (repeat 1 (length (hd [] table)))
                                     (length table))) 0)
                   (map np.mean
                        (repeat (repeat 1 (length (hd [] table)))
                                (length table)))).
  { apply nth_In. now rewrite length_map, repeat_length. }
  apply in_map_iff in Hin. destruct Hin as (row & <- & Hrow).
  apply repeat_spec in Hrow. subst row. now apply mean_repeat_one.
Qed.

(** [X17] With the efficiency flag off, a table that is present is still
    indexed: when it has at least one energy bin and every index the
    traversal uses is below its number of rows, a per-element run without
    random colouring ends normally with every box in the base colour, the
    same solids as without a table. *)
Theorem flag_off_with_table_gives_base_colors (args : Args) (header : Header)
    (table : np.ndarray) (g : nat -> Z) :
  well_formed header = true ->
  modules_only args = false -> show_det_eff args = false ->
  random_color args = false ->
  det_el_efficiencies (detection_efficiencies (scanner header)) = Some table ->
  (0 < snd (np.shape table))%nat ->
  Forall (fun j : job => (snd j < length table)%nat) (expected_jobs header) ->
  run args header g
  = (inr tt, map base_colored (expected_boxes header) ++ fov_meshes args).
Proof.
  intros _ Hmode Hshow Hrand Htab Hbins Hidx.
  assert (Hw : weights_of (show_det_eff args) header
               = Some (np.mean_axis1 (np.ones (np.shape table)))).
  { unfold weights_of. rewrite Htab, Hshow. reflexivity. }
  assert (Hlen : length (np.mean_axis1 (np.ones (np.shape table)))
                 = length table).
  { unfold np.mean_axis1, np.ones. now rewrite length_map, repeat_length. }
  rewrite (per_element_run args header g Hmode).
  - rewrite Hw, Hrand, paint_all_fixed, <- expected_jobs_boxes, map_map.
    do 2 f_equal. apply map_ext_in. intros j Hj.
    rewrite Forall_forall in Hidx. specialize (Hidx j Hj).
    unfold paint, job_color, base_colored. f_equal. f_equal.
    rewrite (f_color_of_scale_comp _ 1) by now apply ones_weight.
    reflexivity.
  - rewrite Hshow. discriminate.
  - rewrite Hw, Hrand. eapply Forall_impl; [|exact Hidx].
    intros j Hj. right. now rewrite Hlen.
Qed.

Lemma flag_off_with_table_gives_base_colors_witness :
  run (args_of false false false) two_group_header raw_words
  = (inr tt, map base_colored (expected_boxes two_group_header)).
Proof.
  rewrite (flag_off_with_table_gives_base_colors (args_of false false false)
             two_group_header [[1]; [0]] raw_words);
    try reflexivity.
  - cbn. lia.
  - repeat constructor.
Defined.

(** [X18] Between 0 and 1 a higher efficiency never gives a darker colour:
    every channel of the element with the larger efficiency is at least the
    channel of the other. *)
Theorem higher_efficiency_is_not_darker (m m' : Trimesh) (effs : np.vector)
    (mod_i n det_i det_i' : nat) (e e' : Q) (s : state) :
  nth_error effs (mod_i * n + det_i) = Some e ->
  nth_error effs (mod_i * n + det_i') = Some e' ->
  0 <= e -> e <= e' -> e' <= 1 ->
  exists r g r' g',
    set_detector_color m (Some effs) mod_i n det_i false s
      = (inr (set_face_colors m [r; g; g; 50%Z]), s)
    /\ set_detector_color m' (Some effs) mod_i n det_i' false s
      = (inr (set_face_colors m' [r'; g'; g'; 50%Z]), s)
    /\ (r <= r')%Z /\ (g <= g')%Z.
Proof.
  intros Hk Hk' H0 Hle H1.
  assert (E1 : e <= 1) by (eapply Qle_trans; eassumption).
  assert (E0 : 0 <= e') by (eapply Qle_trans; eassumption).
  destruct (efficiency_in_unit_range_steps m effs mod_i n det_i e s Hk H0 E1)
    as [Hrun _].
  destruct (efficiency_in_unit_range_steps m' effs mod_i n det_i' e' s Hk' E0 H1)
    as [Hrun' _].
  do 4 eexists. split; [exact Hrun|]. split; [exact Hrun'|].
  split; apply Qfloor_resp_le.
  - rewrite (Qmult_comm 255 e), (Qmult_comm 255 e').
    apply Qmult_le_compat_r; [exact Hle | discriminate].
  - rewrite (Qmult_comm 40 e), (Qmult_comm 40 e').
    apply Qmult_le_compat_r; [exact Hle | discriminate].
Qed.

Lemma higher_efficiency_is_not_darker_witness :
  exists r g r' g',
    set_detector_color (create_box_from_vertices []) (Some [1 # 4; 3 # 4])
      0 2 0 false (initial_state raw_words)
    = (inr (set_face_colors (create_box_from_vertices []) [r; g; g; 50%Z]),
       initial_state raw_words)
    /\ set_detector_color (create_box_from_vertices []) (Some [1 # 4; 3 # 4])
         0 2 1 false (initial_state raw_words)
       = (inr (set_face_colors (create_box_from_vertices []) [r'; g'; g'; 50%Z]),
          initial_state raw_words)
    /\ (r <= r')%Z /\ (g <= g')%Z.
Proof.
  apply (higher_efficiency_is_not_darker (create_box_from_vertices [])
           (create_box_from_vertices []) [1 # 4; 3 # 4] 0 2 0 1
           (1 # 4) (3 # 4) (initial_state raw_words));
    first [reflexivity | discriminate].
Defined.

